(** * Deep Gaussian Process objectives (VI and importance-weighted VI)

    A shallow embedding of [elfi/methods/bo/iwvi/models.py]: the classes
    [DGP_VI] and [DGP_IWVI], their layer-stack propagation, the two
    training objectives and the predictive operations.

    Modelling decisions.
    - Floating-point scalars are idealised as real numbers ([R]); rounding,
      overflow and NaN are outside the model.  Tensors carry no element
      type: every tensor the data, the layers and the likelihood supply is
      taken to have gpflow's float type.  The one place where the source
      meets another type, the sum of an empty Python list, is modelled.
    - A tensor is its shape together with its entries in row-major order,
      as TensorFlow stores it.  Each TensorFlow primitive the source calls
      is defined by the index equation of its documentation and returns
      [None] where TensorFlow raises (rank or size mismatch).
    - Building the graph and running it are one step here: a primitive
      that TensorFlow would reject is [None] where the source adds the
      node, although TensorFlow may report it only when the graph runs,
      and only if the fetched value depends on that node.  The statements
      on the objectives assume that the primitives succeed; the errors
      they rest on are raised while the graph is built (an index into an
      empty Python list, a concatenation of no tensors, operands of
      different element types) or by a layer.
    - Layers and the likelihood are external collaborators: records of
      functions.  A layer draws random numbers, so it threads an abstract
      random state [World]; it may raise, so it returns an [option].
    - Every call to a collaborator is recorded in a call log, a ghost
      component of the state that no computation reads. *)

From Stdlib Require Import Reals List Arith Lia Lra Bool Permutation.
Import ListNotations.

(** ** Tensors *)

Module Tensor.

Record tensor : Type := mkT { shape : list nat; data : list R }.

Definition rank (t : tensor) : nat := length (shape t).

(** Number of entries of a tensor of shape [sh]. *)
Definition size (sh : list nat) : nat := fold_right Nat.mul 1 sh.

(** Row-major position of a multi-index, and its inverse. *)
Fixpoint ravel (sh idx : list nat) : nat :=
  match sh, idx with
  | _ :: sh', i :: idx' => i * size sh' + ravel sh' idx'
  | _, _ => 0
  end.

Fixpoint unravel (sh : list nat) (k : nat) : list nat :=
  match sh with
  | [] => []
  | _ :: sh' => (k / size sh') :: unravel sh' (k mod size sh')
  end.

Fixpoint in_bounds (sh idx : list nat) : Prop :=
  match sh, idx with
  | [], [] => True
  | d :: sh', i :: idx' => i < d /\ in_bounds sh' idx'
  | _, _ => False
  end.

Definition get (t : tensor) (idx : list nat) : R :=
  nth (ravel (shape t) idx) (data t) 0%R.

(** The tensor of shape [sh] whose entry at [idx] is [f idx]. *)
Definition tabulate (sh : list nat) (f : list nat -> R) : tensor :=
  mkT sh (map (fun k => f (unravel sh k)) (seq 0 (size sh))).

(** [t] has shape [sh] and as many entries as [sh] says. *)
Definition has_shape (t : tensor) (sh : list nat) : Prop :=
  shape t = sh /\ length (data t) = size sh.

Definition scalar (x : R) : tensor := mkT [] [x].

(** Sums of reals. *)
Definition Rsum (l : list R) : R := fold_right Rplus 0%R l.

Definition big_sum (n : nat) (f : nat -> R) : R := Rsum (map f (seq 0 n)).

(** *** List helpers used for axes *)

Definition remove_at (a : nat) (l : list nat) : list nat :=
  firstn a l ++ skipn (S a) l.

Definition insert_at (a j : nat) (l : list nat) : list nat :=
  firstn a l ++ j :: skipn a l.

Fixpoint map2 {A B C} (f : A -> B -> C) (l : list A) (m : list B) : list C :=
  match l, m with
  | x :: l', y :: m' => f x y :: map2 f l' m'
  | _, _ => []
  end.

(** Python's [l[-1]]: the last element, an [IndexError] on the empty list. *)
Fixpoint py_last {A} (l : list A) : option A :=
  match l with
  | [] => None
  | [x] => Some x
  | _ :: l' => py_last l'
  end.

(** *** TensorFlow primitives *)

(** [tf.shape(t)[0]]. *)
Definition shape0 (t : tensor) : option nat :=
  match shape t with
  | [] => None
  | d :: _ => Some d
  end.

(** [tf.tile(t, multiples)]: entry [idx] of the result is entry
    [idx mod shape] of [t]. *)
Definition tile (t : tensor) (multiples : list nat) : option tensor :=
  if length multiples =? rank t
  then Some (tabulate (map2 Nat.mul (shape t) multiples)
                      (fun idx => get t (map2 Nat.modulo idx (shape t))))
  else None.

(** [t[:, None, :]]: a new axis of length one at position 1. *)
Definition newaxis1 (t : tensor) : option tensor :=
  match shape t with
  | d0 :: d1 :: rest => Some (mkT (d0 :: 1 :: d1 :: rest) (data t))
  | _ => None
  end.

(** [t[None, :, :]]: a new leading axis of length one. *)
Definition newaxis0 (t : tensor) : option tensor :=
  match shape t with
  | d0 :: d1 :: rest => Some (mkT (1 :: d0 :: d1 :: rest) (data t))
  | _ => None
  end.

(** [tf.reshape(t, sh)]. *)
Definition reshape (t : tensor) (sh : list nat) : option tensor :=
  if size sh =? size (shape t) then Some (mkT sh (data t)) else None.

Definition last_dim (t : tensor) : nat := last (shape t) 0.

Definition lead_dims (t : tensor) : list nat := removelast (shape t).

(** The part of a concatenation along the last axis that holds column
    [j], with the column inside that part. *)
Fixpoint pick (ts : list tensor) (j : nat) : option (tensor * nat) :=
  match ts with
  | [] => None
  | t :: ts' => if j <? last_dim t then Some (t, j) else pick ts' (j - last_dim t)
  end.

Fixpoint list_nat_eqb (l m : list nat) : bool :=
  match l, m with
  | [], [] => true
  | x :: l', y :: m' => (x =? y) && list_nat_eqb l' m'
  | _, _ => false
  end.

(** [tf.concat(ts, -1)]: an empty list raises, a list of one tensor is
    returned as it is, longer lists need equal leading shapes. *)
Definition concat_last (ts : list tensor) : option tensor :=
  match ts with
  | [] => None
  | [t] => Some t
  | t0 :: _ =>
      if forallb (fun t => negb (rank t =? 0)
                           && list_nat_eqb (lead_dims t) (lead_dims t0)) ts
      then Some (tabulate
                   (lead_dims t0 ++ [fold_right Nat.add 0 (map last_dim ts)])
                   (fun idx =>
                      match pick ts (last idx 0) with
                      | Some (t, j) => get t (removelast idx ++ [j])
                      | None => 0%R
                      end))
      else None
  end.

(** The entries of [t] along axis [a] at the position [idx] of the other
    axes. *)
Definition fibre (t : tensor) (a : nat) (idx : list nat) : list R :=
  map (fun j => get t (insert_at a j idx)) (seq 0 (nth a (shape t) 0)).

(** A reduction along axis [a]: [F] is applied to every fibre. *)
Definition reduce_axis (F : list R -> R) (t : tensor) (a : nat) : option tensor :=
  if a <? rank t
  then Some (tabulate (remove_at a (shape t)) (fun idx => F (fibre t a idx)))
  else None.

(** [tf.reduce_sum(t, a)] for a non-negative axis [a]. *)
Definition reduce_sum_axis : tensor -> nat -> option tensor := reduce_axis Rsum.

(** [tf.reduce_sum(t, -1)]. *)
Definition reduce_sum_last (t : tensor) : option tensor :=
  match rank t with
  | 0 => None
  | S a => reduce_sum_axis t a
  end.

(** [tf.reduce_sum(t)]: the sum of all entries. *)
Definition reduce_sum (t : tensor) : R := Rsum (data t).

(** Element types of tensors. *)
Inductive dtype : Type := float32 | float64.

Definition dtype_eqb (a b : dtype) : bool :=
  match a, b with
  | float32, float32 | float64, float64 => true
  | _, _ => false
  end.

(** [tf.reduce_sum(ts)] on a Python list of tensors of type [float_type],
    with the element type of the result: the list is packed into one
    tensor, which needs equal shapes, and summed.  An empty Python list
    is converted to a float32 tensor, so its sum is a float32 zero. *)
Definition reduce_sum_list (float_type : dtype) (ts : list tensor)
  : option (R * dtype) :=
  match ts with
  | [] => Some (0%R, float32)
  | t0 :: _ =>
      if forallb (fun t => list_nat_eqb (shape t) (shape t0)) ts
      then Some (Rsum (map reduce_sum ts), float_type)
      else None
  end.

(** [a - g] for a scalar tensor [a] of type [float_type] and a scalar
    tensor [g]: TensorFlow raises a [TypeError] on operands of different
    element types. *)
Definition sub_typed (float_type : dtype) (a : R) (g : R * dtype)
  : option R :=
  if dtype_eqb float_type (snd g) then Some (a - fst g)%R else None.

(** [tf.reduce_mean(t, a)]: the sum along the axis over its length. *)
Definition Rmean (l : list R) : R := (Rsum l / INR (length l))%R.

Definition reduce_mean_axis : tensor -> nat -> option tensor := reduce_axis Rmean.

(** [reduce_max] along a fibre, zero for an empty fibre (TensorFlow
    replaces a non-finite maximum by zero before it subtracts). *)
Definition Rmax_list (l : list R) : R :=
  match l with
  | [] => 0%R
  | x :: l' => fold_right Rmax x l'
  end.

(** [tf.reduce_logsumexp] on one fibre: the maximum is subtracted before
    the exponential and added back after the logarithm. *)
Definition logsumexp (l : list R) : R :=
  let m := Rmax_list l in
  (ln (Rsum (map (fun x => exp (x - m)) l)) + m)%R.

(** [tf.reduce_logsumexp(t, a)]. *)
Definition reduce_logsumexp : tensor -> nat -> option tensor :=
  reduce_axis logsumexp.

(** [tf.matrix_diag_part(t)]: the diagonal of each innermost matrix. *)
Definition matrix_diag_part (t : tensor) : option tensor :=
  match rev (shape t) with
  | c :: r :: lead_rev =>
      Some (tabulate (rev lead_rev ++ [Nat.min r c])
              (fun idx => get t (removelast idx ++ [last idx 0; last idx 0])))
  | _ => None
  end.

Definition is_perm (perm : list nat) (n : nat) : bool :=
  (length perm =? n)
  && forallb (fun a => existsb (Nat.eqb a) perm) (seq 0 n).

(** Position of axis [a] in the permutation [perm]. *)
Fixpoint index_of (a : nat) (perm : list nat) : nat :=
  match perm with
  | [] => 0
  | p :: perm' => if p =? a then 0 else S (index_of a perm')
  end.

(** [tf.transpose(t, perm)]: axis [i] of the result is axis [perm[i]] of
    [t]. *)
Definition transpose (t : tensor) (perm : list nat) : option tensor :=
  if is_perm perm (rank t)
  then Some (tabulate (map (fun p => nth p (shape t) 0) perm)
               (fun idx => get t (map (fun a => nth (index_of a perm) idx 0)
                                      (seq 0 (rank t)))))
  else None.

(** Shape of a broadcast of two shapes, aligned at the last axis. *)
Fixpoint broadcast_rev (s1 s2 : list nat) : option (list nat) :=
  match s1, s2 with
  | [], _ => Some s2
  | _, [] => Some s1
  | d1 :: s1', d2 :: s2' =>
      match broadcast_rev s1' s2' with
      | None => None
      | Some s =>
          if d1 =? d2 then Some (d1 :: s)
          else if d1 =? 1 then Some (d2 :: s)
          else if d2 =? 1 then Some (d1 :: s)
          else None
      end
  end.

Definition broadcast_shape (s1 s2 : list nat) : option (list nat) :=
  option_map (@rev nat) (broadcast_rev (rev s1) (rev s2)).

(** Entry of [t] seen through a broadcast to a shape of rank at least its
    own: the leading axes are dropped, an axis of length one is read at 0. *)
Definition bget (t : tensor) (idx : list nat) : R :=
  get t (map2 Nat.modulo (skipn (length idx - rank t) idx) (shape t)).

(** An element-wise binary operator with broadcasting. *)
Definition zip_with (f : R -> R -> R) (a b : tensor) : option tensor :=
  match broadcast_shape (shape a) (shape b) with
  | Some sh => Some (tabulate sh (fun idx => f (bget a idx) (bget b idx)))
  | None => None
  end.

Definition sub : tensor -> tensor -> option tensor := zip_with Rminus.
Definition add : tensor -> tensor -> option tensor := zip_with Rplus.
Definition mul : tensor -> tensor -> option tensor := zip_with Rmult.

(** [t - c] and [t ** 0.5] for a tensor [t] and a Python number [c]. *)
Definition sub_scalar (t : tensor) (c : R) : tensor :=
  mkT (shape t) (map (fun x => (x - c)%R) (data t)).

Definition sqrt_t (t : tensor) : tensor := mkT (shape t) (map sqrt (data t)).

End Tensor.

Import Tensor.

(** ** Collaborators *)

(** Modelled from the spec: the enumeration [RegularizerType] that the
    source imports from [elfi.methods.bo.iwvi.layers], which is not among
    the source files; the spec gives its two values. *)
Inductive RegularizerType : Type := LOCAL | GLOBAL.

Definition RegularizerType_eqb (a b : RegularizerType) : bool :=
  match a, b with
  | LOCAL, LOCAL | GLOBAL, GLOBAL => true
  | _, _ => false
  end.

(** The likelihood object: [variational_expectations(mean, cov, Y)] and
    [predict_mean_and_var(mean, cov)]. *)
Record Likelihood : Type := mkLikelihood {
  variational_expectations : tensor -> tensor -> tensor -> option tensor;
  predict_mean_and_var : tensor -> tensor -> option (tensor * tensor)
}.

(** The two classes of the source and the methods they define. *)
Inductive cls : Type := DGP_VI | DGP_IWVI.

Inductive method : Type :=
| m_propagate
| m_build_likelihood
| m_build_predict
| m_build_predict_decomp
| m_predict_f_multisample
| m_predict_y_samples.

(** [class DGP_VI(gpflow.models.GPModel)] defines every method of the
    list; [class DGP_IWVI(DGP_VI)] defines [_build_likelihood] only. *)
Definition defines (c : cls) (m : method) : bool :=
  match c, m with
  | DGP_VI, _ => true
  | DGP_IWVI, m_build_likelihood => true
  | DGP_IWVI, _ => false
  end.

Definition base (c : cls) : option cls :=
  match c with
  | DGP_VI => None
  | DGP_IWVI => Some DGP_VI
  end.

(** Python's method resolution along the (single-inheritance) chain. *)
Definition resolve (c : cls) (m : method) : option cls :=
  if defines c m then Some c
  else match base c with
       | Some b => if defines b m then Some b else None
       | None => None
       end.

(** What gpflow and the TensorFlow session supply:
    [gpflow.settings.float_type] (float64 unless configured otherwise),
    the random state [World], [tf.random_normal(shape)], and the batch a
    [gpflow.params.Minibatch] holder yields in the current run from the
    full data, the batch size and the seed. *)
Class Runtime : Type := {
  float_type : dtype;
  World : Type;
  random_normal : World -> list nat -> tensor * World;
  next_batch : World -> tensor -> nat -> nat -> tensor
}.

Section Model.

Context {RT : Runtime}.

(** A layer: its static regularizer kind and its [propagate] method, which
    returns [(sample, mean, cov, kl)].
    Modelled from the spec: [input_dim], the input dimensionality a layer
    declares; the class is defined in [layers.py], which is not among the
    source files, and [models.py] never reads such an attribute. *)
Record Layer : Type := mkLayer {
  regularizer_type : RegularizerType;
  input_dim : nat;
  layer_propagate :
    World -> tensor -> bool -> option tensor -> bool ->
    option ((tensor * tensor * tensor * tensor) * World)
}.

Inductive holder : Type :=
| DataHolder (t : tensor)
| Minibatch (t : tensor) (batch_size seed : nat).

(** The attributes [__init__] sets. *)
Record Model : Type := mkModel {
  likelihood : Likelihood;
  num_data : nat;
  num_samples : nat;
  X : holder;
  Y : holder;
  layers : list Layer
}.

(** *** State, errors and the call log *)

Inductive event : Type :=
| EvLayer (l : Layer) (x : tensor) (full_cov : bool)
          (inference_amorization_inputs : option tensor)
          (is_sampled_local_regularizer : bool)
| EvVarExp (mean cov y : tensor)
| EvPredict (mean cov : tensor)
| EvNormal (sh : list nat).

Record state : Type := mkState { world : World; calls : list event }.

Definition M (A : Type) : Type := state -> option (A * state).

Definition ret {A} (a : A) : M A := fun st => Some (a, st).

Definition bind {A B} (m : M A) (k : A -> M B) : M B :=
  fun st => match m st with
            | Some (a, st') => k a st'
            | None => None
            end.

Definition lift {A} (o : option A) : M A :=
  fun st => match o with
            | Some a => Some (a, st)
            | None => None
            end.

Definition fail {A} : M A := fun _ => None.

Notation "x <- c1 ;; c2" := (bind c1 (fun x => c2))
  (at level 61, c1 at next level, right associativity).
Notation "' p <- c1 ;; c2" := (bind c1 (fun p => c2))
  (at level 61, p pattern, c1 at next level, right associativity).

Definition log_call (e : event) (st : state) : state :=
  mkState (world st) (calls st ++ [e]).

(** [layer.propagate(x, full_cov=..., inference_amorization_inputs=...,
    is_sampled_local_regularizer=...)]. *)
Definition call_layer (l : Layer) (x : tensor) (full_cov : bool)
    (side : option tensor) (sampled : bool)
  : M (tensor * tensor * tensor * tensor) :=
  fun st =>
    match layer_propagate l (world st) x full_cov side sampled with
    | Some (out, w') =>
        Some (out, mkState w' (calls st ++ [EvLayer l x full_cov side sampled]))
    | None => None
    end.

(** [likelihood.variational_expectations(mean, cov, y)]. *)
Definition call_var_exp (lik : Likelihood) (mean cov y : tensor) : M tensor :=
  fun st =>
    match variational_expectations lik mean cov y with
    | Some t => Some (t, log_call (EvVarExp mean cov y) st)
    | None => None
    end.

(** [likelihood.predict_mean_and_var(mean, cov)]. *)
Definition call_predict (lik : Likelihood) (mean cov : tensor)
  : M (tensor * tensor) :=
  fun st =>
    match predict_mean_and_var lik mean cov with
    | Some mv => Some (mv, log_call (EvPredict mean cov) st)
    | None => None
    end.

Definition call_random_normal (sh : list nat) : M tensor :=
  fun st =>
    let '(z, w') := random_normal (world st) sh in
    Some (z, mkState w' (calls st ++ [EvNormal sh])).

(** [self.X] and [self.Y] as tensors of the current run. *)
Definition as_tensor (h : holder) : M tensor :=
  fun st =>
    match h with
    | DataHolder t => Some (t, st)
    | Minibatch t b s => Some (next_batch (world st) t b s, st)
    end.

(** ** [DGP_VI] *)

(** The statements of the body of [DGP_VI.__init__]; [X.shape[0]] raises
    on a rank-0 array.  The [name] argument only labels the gpflow object
    and is left out.  What gpflow does around the body when an object is
    constructed (it may compile the model at once, which builds the
    objective) is not part of this function. *)
Definition DGP_VI_init (X Y : tensor) (layers : list Layer)
    (likelihood : Likelihood) (num_samples : nat)
    (minibatch_size : option nat) : option Model :=
  match shape0 X with
  | None => None
  | Some n =>
      Some (match minibatch_size with
            | None =>
                mkModel likelihood n num_samples
                        (DataHolder X) (DataHolder Y) layers
            | Some b =>
                mkModel likelihood n num_samples
                        (Minibatch X b 0) (Minibatch Y b 0) layers
            end)
  end.

(** The five lists the loop of [propagate] grows. *)
Definition prop_lists : Type :=
  (list tensor * list tensor * list tensor * list tensor
   * list RegularizerType)%type.

(** The body of [for layer in self.layers] with the lists as loop state. *)
Fixpoint propagate_loop (ls : list Layer) (full_cov : bool)
    (side : option tensor) (sampled : bool) (acc : prop_lists)
  : M prop_lists :=
  match ls with
  | [] => ret acc
  | layer :: ls' =>
      let '(samples, means, covs, kls, kl_types) := acc in
      x <- lift (py_last samples) ;;
      '(sample, mean, cov, kl) <- call_layer layer x full_cov side sampled ;;
      propagate_loop ls' full_cov side sampled
        (samples ++ [sample], means ++ [mean], covs ++ [cov], kls ++ [kl],
         kl_types ++ [regularizer_type layer])
  end.

(** [DGP_VI.propagate]. *)
Definition DGP_VI_propagate (self : Model) (X : tensor) (full_cov : bool)
    (inference_amorization_inputs : option tensor)
    (is_sampled_local_regularizer : bool) : M prop_lists :=
  '(samples, means, covs, kls, kl_types) <-
     propagate_loop (layers self) full_cov inference_amorization_inputs
       is_sampled_local_regularizer ([X], [], [], [], []) ;;
  ret (tl samples, means, covs, kls, kl_types).

(** [self.propagate(...)] on an object of class [c]. *)
Definition propagate (c : cls) : Model -> tensor -> bool -> option tensor ->
                                 bool -> M prop_lists :=
  match resolve c m_propagate with
  | Some DGP_VI => DGP_VI_propagate
  | _ => fun _ _ _ _ _ => fail
  end.

(** [[kl for kl, t in zip(kls, kl_types) if t is rt]]. *)
Definition select (rt : RegularizerType) (kls : list tensor)
    (kl_types : list RegularizerType) : list tensor :=
  map fst (filter (fun p => RegularizerType_eqb (snd p) rt)
                  (combine kls kl_types)).

(** [DGP_VI._build_likelihood], on an object of class [c]. *)
Definition DGP_VI_build_likelihood (c : cls) (self : Model) : M R :=
  Xt <- as_tensor (X self) ;;
  Yt <- as_tensor (Y self) ;;
  X_tiled <- lift (tile Xt [num_samples self; 1]) ;;
  Y_tiled <- lift (tile Yt [num_samples self; 1]) ;;
  XY <- lift (concat_last [X_tiled; Y_tiled]) ;;
  '(samples, means, covs, kls, kl_types) <-
     propagate c self X_tiled false (Some XY) false ;;
  let local_kls := select LOCAL kls kl_types in
  let global_kls := select GLOBAL kls kl_types in
  mean <- lift (py_last means) ;;
  cov <- lift (py_last covs) ;;
  var_exp <- call_var_exp (likelihood self) mean cov Y_tiled ;;
  L_SN <- lift (reduce_sum_last var_exp) ;;
  N <- lift (shape0 Xt) ;;
  let shape_S_N := [num_samples self; N] in
  L_S_N <- lift (reshape L_SN shape_S_N) ;;
  L_S_N <- (if 0 <? length local_kls
            then local_kls_SN_D <- lift (concat_last local_kls) ;;
                 local_kls_SN <- lift (reduce_sum_last local_kls_SN_D) ;;
                 local_kls_S_N <- lift (reshape local_kls_SN shape_S_N) ;;
                 lift (sub L_S_N local_kls_S_N)
            else ret L_S_N) ;;
  let scale := (INR (num_data self) / INR N)%R in
  logp <- lift (reduce_mean_axis L_S_N 0) ;;
  g <- lift (reduce_sum_list float_type global_kls) ;;
  lift (sub_typed float_type (reduce_sum logp * scale)%R g).

(** [DGP_VI._build_predict]. *)
Definition DGP_VI_build_predict (c : cls) (self : Model) (X : tensor)
    (full_cov : bool) : M (tensor * tensor * tensor) :=
  '(fs, means, covs, _, _) <- propagate c self X full_cov None false ;;
  f <- lift (py_last fs) ;;
  mean <- lift (py_last means) ;;
  cov <- lift (py_last covs) ;;
  ret (f, mean, cov).

(** [DGP_VI._build_predict_decomp]. *)
Definition DGP_VI_build_predict_decomp (c : cls) (self : Model) (X : tensor)
    (full_cov : bool) : M (tensor * tensor * list tensor) :=
  '(fs, means, covs, _, _) <- propagate c self X full_cov None false ;;
  f <- lift (py_last fs) ;;
  mean <- lift (py_last means) ;;
  ret (f, mean, covs).

(** [DGP_VI.predict_f_multisample]. *)
Definition DGP_VI_predict_f_multisample (c : cls) (self : Model) (X : tensor)
    (S : nat) : M (tensor * tensor) :=
  X1 <- lift (newaxis0 X) ;;
  X_tiled <- lift (tile X1 [S; 1; 1]) ;;
  '(_, means, covs, _, _) <- propagate c self X_tiled false None false ;;
  mean <- lift (py_last means) ;;
  cov <- lift (py_last covs) ;;
  ret (mean, cov).

(** [DGP_VI.predict_y_samples]. *)
Definition DGP_VI_predict_y_samples (c : cls) (self : Model) (X : tensor)
    (S : nat) : M tensor :=
  X1 <- lift (newaxis0 X) ;;
  X_tiled <- lift (tile X1 [S; 1; 1]) ;;
  '(_, means, covs, _, _) <- propagate c self X_tiled false None false ;;
  mean <- lift (py_last means) ;;
  cov <- lift (py_last covs) ;;
  '(m, v) <- call_predict (likelihood self) mean cov ;;
  z <- call_random_normal (shape mean) ;;
  zv <- lift (mul z (sqrt_t v)) ;;
  lift (add m zv).

(** ** [DGP_IWVI] *)

(** [DGP_IWVI._build_likelihood], on an object of class [c]. *)
Definition DGP_IWVI_build_likelihood (c : cls) (self : Model) : M R :=
  Xt <- as_tensor (X self) ;;
  Yt <- as_tensor (Y self) ;;
  X1 <- lift (newaxis1 Xt) ;;
  X_tiled <- lift (tile X1 [1; num_samples self; 1]) ;;
  Y1 <- lift (newaxis1 Yt) ;;
  Y_tiled <- lift (tile Y1 [1; num_samples self; 1]) ;;
  XY <- lift (concat_last [X_tiled; Y_tiled]) ;;
  '(samples, means, covs, kls, kl_types) <-
     propagate c self X_tiled true (Some XY) true ;;
  let local_kls := select LOCAL kls kl_types in
  let global_kls := select GLOBAL kls kl_types in
  cov <- lift (py_last covs) ;;
  diag <- lift (matrix_diag_part cov) ;;
  cov_diag <- lift (transpose diag [0; 2; 1]) ;;
  mean <- lift (py_last means) ;;
  var_exp <- call_var_exp (likelihood self) mean cov_diag Y_tiled ;;
  L_NK <- lift (reduce_sum_axis var_exp 2) ;;
  L_NK <- (if 0 <? length local_kls
           then local_kls_NKD <- lift (concat_last local_kls) ;;
                local_kls_NK <- lift (reduce_sum_axis local_kls_NKD 2) ;;
                lift (sub L_NK local_kls_NK)
           else ret L_NK) ;;
  N <- lift (shape0 Xt) ;;
  let scale := (INR (num_data self) / INR N)%R in
  lse <- lift (reduce_logsumexp L_NK 1) ;;
  let logp := sub_scalar lse (ln (INR (num_samples self))) in
  g <- lift (reduce_sum_list float_type global_kls) ;;
  lift (sub_typed float_type (reduce_sum logp * scale)%R g).

(** ** Method dispatch *)

Definition build_likelihood (c : cls) : Model -> M R :=
  match resolve c m_build_likelihood with
  | Some DGP_VI => DGP_VI_build_likelihood c
  | Some DGP_IWVI => DGP_IWVI_build_likelihood c
  | None => fun _ => fail
  end.

Definition build_predict (c : cls)
  : Model -> tensor -> bool -> M (tensor * tensor * tensor) :=
  match resolve c m_build_predict with
  | Some DGP_VI => DGP_VI_build_predict c
  | _ => fun _ _ _ => fail
  end.

Definition build_predict_decomp (c : cls)
  : Model -> tensor -> bool -> M (tensor * tensor * list tensor) :=
  match resolve c m_build_predict_decomp with
  | Some DGP_VI => DGP_VI_build_predict_decomp c
  | _ => fun _ _ _ => fail
  end.

Definition predict_f_multisample (c : cls)
  : Model -> tensor -> nat -> M (tensor * tensor) :=
  match resolve c m_predict_f_multisample with
  | Some DGP_VI => DGP_VI_predict_f_multisample c
  | _ => fun _ _ _ => fail
  end.

Definition predict_y_samples (c : cls) : Model -> tensor -> nat -> M tensor :=
  match resolve c m_predict_y_samples with
  | Some DGP_VI => DGP_VI_predict_y_samples c
  | _ => fun _ _ _ => fail
  end.

(** The two objectives under the names the specification gives them. *)
Definition variational_bound_vi : Model -> M R := build_likelihood DGP_VI.
Definition variational_bound_iwvi : Model -> M R := build_likelihood DGP_IWVI.

End Model.

Notation "x <- c1 ;; c2" := (bind c1 (fun x => c2))
  (at level 61, c1 at next level, right associativity).
Notation "' p <- c1 ;; c2" := (bind c1 (fun p => c2))
  (at level 61, p pattern, c1 at next level, right associativity).

(** ** Quantities the statements below are written with *)

(** Sum of the last axis of [t] at the position [li] of the leading axes. *)
Definition row_sum (t : tensor) (li : list nat) : R :=
  big_sum (last_dim t) (fun j => get t (li ++ [j])).

(** The log-density term at the position [li] of the (sample, point)
    axes: the variational expectation summed over the output dimensions,
    minus the LOCAL regularizers summed over their last axis. *)
Definition log_density (var_exp : tensor) (local_kls : list tensor)
    (li : list nat) : R :=
  (row_sum var_exp li - Rsum (map (fun t => row_sum t li) local_kls))%R.

(** Plain log-sum-exp, without the shift by the maximum. *)
Definition log_sum_exp (l : list R) : R := ln (Rsum (map exp l)).

Section RunQuantities.

Context {RT : Runtime}.

(** The tensor [self.X] (or [self.Y]) stands for in the state [st]. *)
Definition batch (h : holder) (st : state) : tensor :=
  match h with
  | DataHolder t => t
  | Minibatch t b s => next_batch (world st) t b s
  end.

(** The layers of a stack run one after the other, each on the sample of
    the one before it: the input each layer receives with the four
    outputs it returns, and the random state left at the end. *)
Fixpoint chain (ls : list Layer) (x : tensor) (full_cov : bool)
    (side : option tensor) (sampled : bool) (w : World)
  : option (list (tensor * (tensor * tensor * tensor * tensor)) * World) :=
  match ls with
  | [] => Some ([], w)
  | l :: ls' =>
      match layer_propagate l w x full_cov side sampled with
      | None => None
      | Some ((s, m, c, k), w') =>
          match chain ls' s full_cov side sampled w' with
          | None => None
          | Some (rest, w'') => Some ((x, (s, m, c, k)) :: rest, w'')
          end
      end
  end.

Definition step_sample (p : tensor * (tensor * tensor * tensor * tensor)) :=
  let '(_, (s, _, _, _)) := p in s.
Definition step_mean (p : tensor * (tensor * tensor * tensor * tensor)) :=
  let '(_, (_, m, _, _)) := p in m.
Definition step_cov (p : tensor * (tensor * tensor * tensor * tensor)) :=
  let '(_, (_, _, c, _)) := p in c.
Definition step_kl (p : tensor * (tensor * tensor * tensor * tensor)) :=
  let '(_, (_, _, _, k)) := p in k.

(** The call-log entries of one pass over the stack. *)
Definition layer_events (ls : list Layer)
    (steps : list (tensor * (tensor * tensor * tensor * tensor)))
    (full_cov : bool) (side : option tensor) (sampled : bool) : list event :=
  map2 (fun l p => EvLayer l (fst p) full_cov side sampled) ls steps.

End RunQuantities.

(** The value the VI objective is shown to return: per point the
    arithmetic mean over the [S] samples of the log-density terms, summed
    over the [N] points, times [num_data / N], minus the GLOBAL
    regularizers. *)
Definition vi_value (num_data S N : nat) (var_exp : tensor)
    (local_kls global_kls : list tensor) : R :=
  (big_sum N (fun n =>
     big_sum S (fun s => log_density var_exp local_kls [(s * N + n)%nat])
     / INR S)
   * (INR num_data / INR N)
   - Rsum (map reduce_sum global_kls))%R.

(** The value the IWVI objective is shown to return: per point the
    log-sum-exp over the [K] samples minus [log K]. *)
Definition iwvi_value (num_data K N : nat) (var_exp : tensor)
    (local_kls global_kls : list tensor) : R :=
  (big_sum N (fun n =>
     log_sum_exp (map (fun k => log_density var_exp local_kls [n; k])
                      (seq 0 K))
     - ln (INR K))
   * (INR num_data / INR N)
   - Rsum (map reduce_sum global_kls))%R.

Section ModelQuantities.

Context {RT : Runtime}.

(** A computation that neither calls a collaborator nor draws noise
    leaves the state as it found it. *)
Definition stateless {A} (m : M A) : Prop :=
  forall st a st', m st = Some (a, st') -> st' = st.

(** The model [self] with another total number of data points. *)
Definition with_num_data (self : Model) (nd : nat) : Model :=
  mkModel (likelihood self) nd (num_samples self) (X self) (Y self)
          (layers self).

(** Whether the sum of the GLOBAL regularizers has the float type [ft] of
    the term it is subtracted from: the sum of an empty list has not,
    unless [ft] is float32. *)
Definition global_sum_typed (ft : dtype) (global_kls : list tensor) : bool :=
  match global_kls with
  | [] => dtype_eqb ft float32
  | _ :: _ => true
  end.

(** No layer of the stack declares a regularizer of kind [rt]. *)
Definition no_layer_declares (rt : RegularizerType) (self : Model) : Prop :=
  Forall (fun l => regularizer_type l <> rt) (layers self).

End ModelQuantities.

(** The reading of the VI reduction as a log of an average: per point the
    logarithm of the arithmetic mean over the [S] samples of the
    exponentiated log-density terms. *)
Definition vi_value_log_of_average (num_data S N : nat) (var_exp : tensor)
    (local_kls global_kls : list tensor) : R :=
  (big_sum N (fun n =>
     ln (big_sum S (fun s =>
           exp (log_density var_exp local_kls [(s * N + n)%nat]))
         / INR S))
   * (INR num_data / INR N)
   - Rsum (map reduce_sum global_kls))%R.

(** ** Concrete stacks

    A runtime without randomness and a few small models on which the
    statements below are instantiated. *)

Definition unit_runtime : Runtime :=
  {| float_type := float64;
     World := unit;
     random_normal := fun w sh => (tabulate sh (fun _ => 0%R), w);
     next_batch := fun _ t _ _ => t |}.

(** A covariance of shape (N, D, K, K) for an input of shape (N, K, D). *)
Definition pair_cov (x : tensor) : tensor :=
  match shape x with
  | [n; k; d] => tabulate [n; d; k; k] (fun _ => 1%R)
  | _ => x
  end.

(** A layer that hands its input on as sample and mean; its regularizer
    is the input itself when LOCAL and the scalar 1 when GLOBAL. *)
Definition echo_layer (rt : RegularizerType) (d : nat) : @Layer unit_runtime :=
  @mkLayer unit_runtime rt d
    (fun w x full_cov _ _ =>
       Some ((x, x, (if full_cov then pair_cov x else x),
              match rt with LOCAL => x | GLOBAL => scalar 1 end), w)).

(** A likelihood whose variational expectation is the mean. *)
Definition echo_likelihood : Likelihood :=
  mkLikelihood (fun mean _ _ => Some mean) (fun mean cov => Some (mean, cov)).

Definition X0 : tensor := mkT [1; 1] [2%R].
Definition Y0 : tensor := mkT [1; 1] [3%R].

Definition state0 : @state unit_runtime := @mkState unit_runtime tt [].

(** One point, two samples, a LOCAL layer followed by a GLOBAL one. *)
Definition echo_model : @Model unit_runtime :=
  @mkModel unit_runtime echo_likelihood 1 2 (DataHolder X0) (DataHolder Y0)
    [echo_layer LOCAL 1; echo_layer GLOBAL 1].

(** The same with a GLOBAL layer only. *)
Definition global_model : @Model unit_runtime :=
  @mkModel unit_runtime echo_likelihood 1 2 (DataHolder X0) (DataHolder Y0)
    [echo_layer GLOBAL 1].

(** The same with a LOCAL layer only. *)
Definition local_model : @Model unit_runtime :=
  @mkModel unit_runtime echo_likelihood 1 2 (DataHolder X0) (DataHolder Y0)
    [echo_layer LOCAL 1].

(** A layer whose mean differs between the two samples of the one point:
    0 for the first, [ln 3] for the second. *)
Definition draw_layer : @Layer unit_runtime :=
  @mkLayer unit_runtime GLOBAL 1
    (fun w x _ _ _ => Some ((x, mkT [2; 1] [0%R; ln 3], x, scalar 0), w)).

Definition draw_model : @Model unit_runtime :=
  @mkModel unit_runtime echo_likelihood 1 2 (DataHolder X0) (DataHolder Y0)
    [draw_layer].

(** A final layer whose covariance couples the two samples of the one
    point: the 2 x 2 block [[1, 2], [3, 4]]. *)
Definition coupled_cov : tensor := mkT [1; 1; 2; 2] [1%R; 2%R; 3%R; 4%R].

Definition coupled_layer : @Layer unit_runtime :=
  @mkLayer unit_runtime GLOBAL 1
    (fun w x _ _ _ => Some ((x, x, coupled_cov, scalar 0), w)).

Definition coupled_model : @Model unit_runtime :=
  @mkModel unit_runtime echo_likelihood 1 2 (DataHolder X0) (DataHolder Y0)
    [coupled_layer].




(** A model without layers. *)
Definition empty_model : @Model unit_runtime :=
  @mkModel unit_runtime echo_likelihood 1 2 (DataHolder X0) (DataHolder Y0) [].

(** A prediction input with two rows. *)
Definition X3 : tensor := mkT [2; 1] [5%R; 7%R].

(** The model [self] with another stack of layers. *)
Definition with_layers {RT : Runtime} (self : Model) (ls : list Layer)
  : Model :=
  mkModel (likelihood self) (num_data self) (num_samples self)
          (X self) (Y self) ls.

(** [global_model] with one sample instead of two. *)
Definition single_model : @Model unit_runtime :=
  @mkModel unit_runtime echo_likelihood 1 1 (DataHolder X0) (DataHolder Y0)
    [echo_layer GLOBAL 1].

(** ** Facts about tensors *)

Module TensorFacts.

(** *** The primitives on small tensors *)

Example tile_rows :
  tile (mkT [2; 1] [1%R; 2%R]) [2; 1] = Some (mkT [4; 1] [1%R; 2%R; 1%R; 2%R]).
Proof. reflexivity. Qed.

Example tile_new_axis :
  match newaxis1 (mkT [2; 1] [1%R; 2%R]) with
  | Some t => tile t [1; 2; 1]
  | None => None
  end = Some (mkT [2; 2; 1] [1%R; 1%R; 2%R; 2%R]).
Proof. reflexivity. Qed.

Example concat_columns :
  concat_last [mkT [2; 1] [1%R; 2%R]; mkT [2; 2] [3%R; 4%R; 5%R; 6%R]]
  = Some (mkT [2; 3] [1%R; 3%R; 4%R; 2%R; 5%R; 6%R]).
Proof. reflexivity. Qed.

Example concat_nothing : concat_last [] = None.
Proof. reflexivity. Qed.

Example sum_of_rows :
  reduce_sum_last (mkT [2; 2] [1%R; 2%R; 3%R; 4%R])
  = Some (mkT [2] [(1 + (2 + 0))%R; (3 + (4 + 0))%R]).
Proof. reflexivity. Qed.

Example mean_of_columns :
  reduce_mean_axis (mkT [2; 2] [1%R; 2%R; 3%R; 4%R]) 0
  = Some (mkT [2] [((1 + (3 + 0)) / INR 2)%R; ((2 + (4 + 0)) / INR 2)%R]).
Proof. reflexivity. Qed.

Example transpose_last_two :
  transpose (mkT [1; 2; 3] [1%R; 2%R; 3%R; 4%R; 5%R; 6%R]) [0; 2; 1]
  = Some (mkT [1; 3; 2] [1%R; 4%R; 2%R; 5%R; 3%R; 6%R]).
Proof. reflexivity. Qed.

Example diagonal_of_block :
  matrix_diag_part (mkT [1; 1; 2; 2] [1%R; 2%R; 3%R; 4%R])
  = Some (mkT [1; 1; 2] [1%R; 4%R]).
Proof. reflexivity. Qed.

Example reshape_rows :
  reshape (mkT [4] [1%R; 2%R; 3%R; 4%R]) [2; 2]
  = Some (mkT [2; 2] [1%R; 2%R; 3%R; 4%R])
  /\ reshape (mkT [4] [1%R; 2%R; 3%R; 4%R]) [3; 2] = None.
Proof. split; reflexivity. Qed.

Example subtract_broadcast :
  sub (mkT [2; 2] [5%R; 6%R; 7%R; 8%R]) (mkT [2] [1%R; 2%R])
  = Some (mkT [2; 2] [(5 - 1)%R; (6 - 2)%R; (7 - 1)%R; (8 - 2)%R]).
Proof. reflexivity. Qed.

(** *** Indexing *)

Lemma ravel_lt (sh idx : list nat) :
  in_bounds sh idx -> ravel sh idx < size sh.
Proof.
  revert idx; induction sh as [|d sh IH]; intros [|i idx]; simpl; try tauto.
  - lia.
  - intros [Hi Hb]. specialize (IH _ Hb). fold (size sh). nia.
Qed.

Lemma unravel_ravel (sh idx : list nat) :
  in_bounds sh idx -> unravel sh (ravel sh idx) = idx.
Proof.
  revert idx; induction sh as [|d sh IH]; intros [|i idx]; simpl; try tauto.
  intros [Hi Hb].
  pose proof (ravel_lt _ _ Hb) as Hr.
  assert (Hq : (i * size sh + ravel sh idx) / size sh = i).
  { symmetry. apply Nat.div_unique with (r := ravel sh idx); lia. }
  assert (Hm : (i * size sh + ravel sh idx) mod size sh = ravel sh idx).
  { symmetry. apply Nat.mod_unique with (q := i); lia. }
  rewrite Hq, Hm, IH; auto.
Qed.

Lemma unravel_in_bounds (sh : list nat) (k : nat) :
  k < size sh -> in_bounds sh (unravel sh k).
Proof.
  revert k; induction sh as [|d sh IH]; simpl; intros k Hk; [exact I|].
  fold (size sh) in Hk.
  assert (Hs : size sh <> 0) by (intros E; rewrite E in Hk; lia).
  split.
  - apply Nat.Div0.div_lt_upper_bound. lia.
  - apply IH. apply Nat.mod_upper_bound; assumption.
Qed.

Lemma nth_map_seq (f : nat -> R) (n k : nat) :
  k < n -> nth k (map f (seq 0 n)) 0%R = f k.
Proof.
  intros Hk.
  rewrite (nth_indep _ 0%R (f 0)) by (rewrite length_map, length_seq; exact Hk).
  rewrite map_nth, seq_nth by exact Hk. reflexivity.
Qed.

Lemma nth_tabulate (sh : list nat) (f : list nat -> R) (k : nat) :
  k < size sh -> nth k (data (tabulate sh f)) 0%R = f (unravel sh k).
Proof. intros Hk. unfold tabulate; simpl. apply nth_map_seq; exact Hk. Qed.

Lemma get_tabulate (sh : list nat) (f : list nat -> R) (idx : list nat) :
  in_bounds sh idx -> get (tabulate sh f) idx = f idx.
Proof.
  intros Hb. unfold get. simpl shape.
  rewrite nth_tabulate by (apply ravel_lt; exact Hb).
  rewrite unravel_ravel by exact Hb. reflexivity.
Qed.

Lemma has_shape_tabulate (sh : list nat) (f : list nat -> R) :
  has_shape (tabulate sh f) sh.
Proof.
  split; [reflexivity|]. unfold tabulate; simpl.
  rewrite length_map, length_seq. reflexivity.
Qed.

Lemma big_sum_ext (n : nat) (f g : nat -> R) :
  (forall i, i < n -> f i = g i) -> big_sum n f = big_sum n g.
Proof.
  intros H. unfold big_sum. f_equal. apply map_ext_in.
  intros i Hi. apply in_seq in Hi. apply H. lia.
Qed.

Lemma list_as_map_nth (l : list R) :
  l = map (fun i => nth i l 0%R) (seq 0 (length l)).
Proof.
  apply nth_ext with (d := 0%R) (d' := 0%R).
  - rewrite length_map, length_seq. reflexivity.
  - intros k Hk. rewrite nth_map_seq by exact Hk. reflexivity.
Qed.

(** The sum of all entries of a vector, by index. *)
Lemma reduce_sum_vector (t : tensor) (n : nat) :
  has_shape t [n] -> reduce_sum t = big_sum n (fun i => get t [i]).
Proof.
  intros [Hs Hl]. unfold reduce_sum, big_sum, get. rewrite Hs.
  simpl in Hl. rewrite Nat.mul_1_r in Hl.
  rewrite (list_as_map_nth (data t)) at 1. rewrite Hl.
  f_equal. apply map_ext. intros i. simpl. f_equal. lia.
Qed.

Lemma reduce_sum_tabulate (n : nat) (f : list nat -> R) :
  reduce_sum (tabulate [n] f) = big_sum n (fun i => f [i]).
Proof.
  rewrite (reduce_sum_vector _ _ (has_shape_tabulate [n] f)).
  apply big_sum_ext. intros i Hi. apply get_tabulate. simpl. tauto.
Qed.

Lemma reduce_axis_some (F : list R -> R) (t : tensor) (a : nat) (sh : list nat) :
  shape t = sh -> a < length sh ->
  reduce_axis F t a
  = Some (tabulate (remove_at a sh) (fun idx => F (fibre t a idx))).
Proof.
  intros Hs Ha. unfold reduce_axis, rank. rewrite Hs.
  apply Nat.ltb_lt in Ha. rewrite Ha. reflexivity.
Qed.

Lemma reshape_some (t : tensor) (sh : list nat) :
  size sh = size (shape t) -> reshape t sh = Some (mkT sh (data t)).
Proof.
  intros H. unfold reshape. rewrite H, Nat.eqb_refl. reflexivity.
Qed.

(** Reading a flat vector of [S * N] entries as an [S] by [N] matrix. *)
Lemma get_reshape_matrix (f : list nat -> R) (S N s n : nat) :
  s < S -> n < N ->
  get (mkT [S; N] (data (tabulate [S * N] f))) [s; n] = f [s * N + n].
Proof.
  intros Hs Hn. unfold get. cbn [shape data ravel size fold_right].
  replace (s * (N * 1) + (n * 1 + 0)) with (s * N + n) by lia.
  rewrite nth_tabulate by (simpl; nia).
  cbn [unravel size fold_right]. rewrite Nat.div_1_r. reflexivity.
Qed.

Lemma list_nat_eqb_refl (l : list nat) : list_nat_eqb l l = true.
Proof.
  induction l as [|x l IH]; simpl; [reflexivity|].
  rewrite Nat.eqb_refl, IH. reflexivity.
Qed.

Lemma broadcast_rev_same (l : list nat) : broadcast_rev l l = Some l.
Proof.
  induction l as [|d l IH]; simpl; [reflexivity|].
  rewrite IH, Nat.eqb_refl. reflexivity.
Qed.

Lemma broadcast_shape_same (sh : list nat) : broadcast_shape sh sh = Some sh.
Proof.
  unfold broadcast_shape. rewrite broadcast_rev_same. simpl.
  rewrite rev_involutive. reflexivity.
Qed.

Lemma in_bounds_length (sh idx : list nat) :
  in_bounds sh idx -> length idx = length sh.
Proof.
  revert idx; induction sh as [|d sh IH]; intros [|i idx]; simpl; try tauto.
  intros [_ H]. f_equal. apply IH, H.
Qed.

Lemma map2_mod_in_bounds (sh idx : list nat) :
  in_bounds sh idx -> map2 Nat.modulo idx sh = idx.
Proof.
  revert idx; induction sh as [|d sh IH]; intros [|i idx]; simpl; try tauto.
  intros [Hi H]. rewrite Nat.mod_small by exact Hi. f_equal. apply IH, H.
Qed.

Lemma bget_in_bounds (t : tensor) (idx : list nat) :
  in_bounds (shape t) idx -> bget t idx = get t idx.
Proof.
  intros H. unfold bget, rank.
  rewrite (in_bounds_length _ _ H), Nat.sub_diag. simpl skipn.
  rewrite map2_mod_in_bounds by exact H. reflexivity.
Qed.

(** An element-wise operator on two tensors of one shape. *)
Lemma zip_with_same (f : R -> R -> R) (a b : tensor) (sh : list nat) :
  shape a = sh -> shape b = sh ->
  zip_with f a b = Some (tabulate sh (fun idx => f (bget a idx) (bget b idx))).
Proof.
  intros Ha Hb. unfold zip_with. rewrite Ha, Hb, broadcast_shape_same.
  reflexivity.
Qed.

Lemma reduce_sum_list_some (ft : dtype) (ts : list tensor) (sh : list nat) :
  Forall (fun t => shape t = sh) ts ->
  reduce_sum_list ft ts
  = Some (Rsum (map reduce_sum ts),
          match ts with [] => float32 | _ :: _ => ft end).
Proof.
  intros H. destruct ts as [|t0 ts']; [reflexivity|].
  unfold reduce_sum_list.
  replace (forallb _ (t0 :: ts')) with true; [reflexivity|].
  symmetry. apply forallb_forall. intros t Ht.
  rewrite Forall_forall in H.
  rewrite (H t Ht), (H t0 (or_introl eq_refl)). apply list_nat_eqb_refl.
Qed.

Lemma Rsum_app (l m : list R) : Rsum (l ++ m) = (Rsum l + Rsum m)%R.
Proof. induction l as [|x l IH]; simpl; [lra | rewrite IH; lra]. Qed.

Lemma map_add_seq (n a m : nat) :
  map (fun j => n + j) (seq a m) = seq (n + a) m.
Proof.
  revert a; induction m as [|m IH]; intros a; simpl; [reflexivity|].
  rewrite IH. do 2 f_equal. lia.
Qed.

Lemma big_sum_add (n m : nat) (f : nat -> R) :
  big_sum (n + m) f = (big_sum n f + big_sum m (fun j => f (n + j)%nat))%R.
Proof.
  unfold big_sum. rewrite seq_app, map_app, Rsum_app. f_equal.
  simpl. rewrite <- (map_map (fun j => n + j) f), map_add_seq.
  rewrite Nat.add_0_r. reflexivity.
Qed.

(** Summing a row of a concatenation sums the rows of its parts. *)
Lemma big_sum_pick (ts : list tensor) (li : list nat) :
  big_sum (fold_right Nat.add 0 (map last_dim ts))
          (fun j => match pick ts j with
                    | Some (t, j') => get t (li ++ [j'])
                    | None => 0%R
                    end)
  = Rsum (map (fun t => row_sum t li) ts).
Proof.
  induction ts as [|t ts IH]; [reflexivity|].
  change (Rsum (map (fun t => row_sum t li) (t :: ts)))
    with (row_sum t li + Rsum (map (fun t => row_sum t li) ts))%R.
  change (fold_right Nat.add 0 (map last_dim (t :: ts)))
    with (last_dim t + fold_right Nat.add 0 (map last_dim ts)).
  rewrite big_sum_add. f_equal.
  - unfold row_sum. apply big_sum_ext. intros j Hj. simpl.
    apply Nat.ltb_lt in Hj. rewrite Hj. reflexivity.
  - rewrite <- IH. apply big_sum_ext. intros j _. simpl.
    replace (last_dim t + j <? last_dim t) with false
      by (symmetry; apply Nat.ltb_ge; lia).
    replace (last_dim t + j - last_dim t) with j by lia. reflexivity.
Qed.

Lemma in_bounds_app (lead li : list nat) (d j : nat) :
  in_bounds lead li -> j < d -> in_bounds (lead ++ [d]) (li ++ [j]).
Proof.
  revert li; induction lead as [|e lead IH]; intros [|i li]; simpl; try tauto.
  intros [Hi H] Hj. split; [exact Hi | apply IH; assumption].
Qed.

(** The concatenation of tensors of shapes [lead ++ [w]]: its shape and
    the sums of its last axis. *)
Lemma concat_last_rows (ts : list tensor) (lead : list nat) :
  ts <> [] ->
  Forall (fun t => exists w, shape t = lead ++ [w]) ts ->
  exists c,
    concat_last ts = Some c
    /\ shape c = lead ++ [fold_right Nat.add 0 (map last_dim ts)]
    /\ forall li, in_bounds lead li ->
         row_sum c li = Rsum (map (fun t => row_sum t li) ts).
Proof.
  intros Hne H. destruct ts as [|t0 [|t1 ts']]; [congruence| |].
  - exists t0. split; [reflexivity|]. split.
    + apply Forall_inv in H. destruct H as [w Hw].
      cbn [map fold_right]. unfold last_dim. rewrite Hw, last_last.
      rewrite Nat.add_0_r. reflexivity.
    + intros li _. simpl. lra.
  - set (ts := t0 :: t1 :: ts') in *.
    assert (Hl : forall t, In t ts -> lead_dims t = lead /\ rank t <> 0).
    { intros t Ht. rewrite Forall_forall in H. destruct (H t Ht) as [w Hw].
      unfold lead_dims, rank. rewrite Hw, removelast_last, length_app.
      simpl. split; [reflexivity | lia]. }
    eexists. split; [|split].
    + unfold concat_last, ts. cbv beta iota. fold ts.
      match goal with
      | |- context [forallb ?f ts] => replace (forallb f ts) with true
      end; [reflexivity|].
      symmetry. apply forallb_forall. intros t Ht.
      destruct (Hl t Ht) as [E1 E2].
      rewrite E1, (proj1 (Hl t0 (or_introl eq_refl))), list_nat_eqb_refl.
      apply Nat.eqb_neq in E2. rewrite E2. reflexivity.
    + cbn [shape tabulate].
      rewrite (proj1 (Hl t0 (or_introl eq_refl))). reflexivity.
    + intros li Hb. rewrite (proj1 (Hl t0 (or_introl eq_refl))).
      rewrite <- big_sum_pick. unfold row_sum at 1, last_dim.
      cbn [shape tabulate]. rewrite last_last. apply big_sum_ext. intros j Hj.
      rewrite get_tabulate by (apply in_bounds_app; assumption).
      rewrite last_last, removelast_last. reflexivity.
Qed.

(** The sum of a fibre along the last axis is [row_sum]. *)
Lemma Rsum_fibre_last (t : tensor) (lead li : list nat) (d : nat) :
  shape t = lead ++ [d] -> length li = length lead ->
  fibre t (length lead) li = map (fun j => get t (li ++ [j])) (seq 0 d).
Proof.
  intros Hs Hl. unfold fibre. rewrite Hs, nth_middle.
  apply map_ext. intros j. unfold insert_at.
  rewrite <- Hl, firstn_all, skipn_all. reflexivity.
Qed.

Lemma row_sum_fibre (t : tensor) (lead li : list nat) (d : nat) :
  shape t = lead ++ [d] -> length li = length lead ->
  Rsum (fibre t (length lead) li) = row_sum t li.
Proof.
  intros Hs Hl. rewrite (Rsum_fibre_last _ _ _ _ Hs Hl).
  unfold row_sum, big_sum, last_dim. rewrite Hs, last_last. reflexivity.
Qed.

(** *** The shifted log-sum-exp is the plain one *)

Lemma Rsum_exp_shift (m : R) (l : list R) :
  Rsum (map (fun x => exp (x - m)) l) = (exp (- m) * Rsum (map exp l))%R.
Proof.
  induction l as [|x l IH]; simpl; [lra|].
  rewrite IH. unfold Rminus. rewrite exp_plus. lra.
Qed.

Lemma Rsum_exp_pos (l : list R) : l <> [] -> (0 < Rsum (map exp l))%R.
Proof.
  intros Hne. destruct l as [|x l]; [congruence|]. clear Hne.
  revert x; induction l as [|y l IH]; intros x; simpl.
  - pose proof (exp_pos x). lra.
  - pose proof (exp_pos x). specialize (IH y). simpl in IH. lra.
Qed.

Lemma logsumexp_stable (l : list R) :
  l <> [] -> logsumexp l = log_sum_exp l.
Proof.
  intros Hne. unfold logsumexp, log_sum_exp.
  rewrite Rsum_exp_shift.
  rewrite ln_mult by (apply exp_pos || apply Rsum_exp_pos; exact Hne).
  rewrite ln_exp. lra.
Qed.

Lemma map_seq_nonempty (f : nat -> R) (n : nat) :
  1 <= n -> map f (seq 0 n) <> [].
Proof. destruct n; [lia | discriminate]. Qed.

End TensorFacts.

(** ** Facts about the model *)

Import TensorFacts.

Section MonadFacts.

Context {RT : Runtime}.

Lemma bind_eq {A B} (m : M A) (k : A -> M B) (st st' : state) (a : A) :
  m st = Some (a, st') -> bind m k st = k a st'.
Proof. intros H. unfold bind. rewrite H. reflexivity. Qed.

Lemma bind_lift {A B} (o : option A) (k : A -> M B) (st : state) (a : A) :
  o = Some a -> bind (lift o) k st = k a st.
Proof. intros H. unfold bind, lift. rewrite H. reflexivity. Qed.

Lemma as_tensor_batch (h : holder) (st : state) :
  as_tensor h st = Some (batch h st, st).
Proof. destruct h; reflexivity. Qed.

Lemma py_last_snoc {A} (l : list A) (x : A) : py_last (l ++ [x]) = Some x.
Proof.
  induction l as [|y l IH]; [reflexivity|].
  simpl. rewrite IH. destruct (l ++ [x]) eqn:E; [|reflexivity].
  destruct l; discriminate.
Qed.

(** The loop of [propagate], started on lists that already hold entries,
    extends them by one pass of [chain]. *)
Lemma propagate_loop_chain (ls : list Layer) (fc : bool) (side : option tensor)
    (sampled : bool) :
  forall (x : tensor) (ss ms cs ks : list tensor) (ts : list RegularizerType)
         (st : state),
    propagate_loop ls fc side sampled (ss ++ [x], ms, cs, ks, ts) st
    = match chain ls x fc side sampled (world st) with
      | None => None
      | Some (steps, w') =>
          Some ((ss ++ [x] ++ map step_sample steps,
                 ms ++ map step_mean steps,
                 cs ++ map step_cov steps,
                 ks ++ map step_kl steps,
                 ts ++ map regularizer_type ls),
                mkState w' (calls st ++ layer_events ls steps fc side sampled))
      end.
Proof.
  induction ls as [|l ls IH]; intros x ss ms cs ks ts st.
  - simpl. unfold ret. rewrite !app_nil_r. destruct st; reflexivity.
  - cbn [propagate_loop chain].
    rewrite (bind_lift _ _ _ _ (py_last_snoc ss x)).
    unfold bind at 1, call_layer.
    destruct (layer_propagate l (world st) x fc side sampled)
      as [[[[[s m] c] k] w']|]; [|reflexivity].
    rewrite IH. cbn [world calls].
    destruct (chain ls s fc side sampled w') as [[steps w'']|]; [|reflexivity].
    cbn [map step_sample step_mean step_cov step_kl layer_events map2 fst].
    rewrite <- !app_assoc. reflexivity.
Qed.

(** *** The reduction steps of the VI objective *)

(** [L_S_N]: the variational expectation summed over the output
    dimensions and reshaped to (S, N). *)
Lemma vi_L_S_N (var_exp : tensor) (S N Dy : nat) :
  shape var_exp = [S * N; Dy] ->
  exists L_SN L_S_N,
    reduce_sum_last var_exp = Some L_SN
    /\ reshape L_SN [S; N] = Some L_S_N
    /\ shape L_S_N = [S; N]
    /\ forall s n, s < S -> n < N ->
         get L_S_N [s; n] = row_sum var_exp [s * N + n].
Proof.
  intros Hs.
  exists (tabulate [S * N] (fun idx => Rsum (fibre var_exp 1 idx))).
  eexists. split; [|split; [|split]].
  - unfold reduce_sum_last, rank. rewrite Hs. cbn [length].
    unfold reduce_sum_axis.
    rewrite (reduce_axis_some _ _ _ _ Hs) by (simpl; lia). reflexivity.
  - apply reshape_some. simpl. lia.
  - reflexivity.
  - intros s n Hsl Hn. rewrite get_reshape_matrix by assumption.
    apply (row_sum_fibre var_exp [S * N] [s * N + n] Dy Hs eq_refl).
Qed.

(** The guarded subtraction of the LOCAL regularizers. *)
Lemma vi_local_step (L0 : tensor) (local_kls : list tensor) (S N : nat) :
  shape L0 = [S; N] ->
  Forall (fun t => exists W, shape t = [S * N; W]) local_kls ->
  exists L,
    shape L = [S; N]
    /\ (forall s n, s < S -> n < N ->
          get L [s; n]
          = (get L0 [s; n]
             - Rsum (map (fun t => row_sum t [(s * N + n)%nat]) local_kls))%R)
    /\ forall (B : Type) (k : tensor -> M B) (st : state),
         bind (if 0 <? length local_kls
               then local_kls_SN_D <- lift (concat_last local_kls) ;;
                    local_kls_SN <- lift (reduce_sum_last local_kls_SN_D) ;;
                    local_kls_S_N <- lift (reshape local_kls_SN [S; N]) ;;
                    lift (sub L0 local_kls_S_N)
               else ret L0) k st
         = k L st.
Proof.
  intros HL0 Hloc. destruct local_kls as [|t0 ts].
  - exists L0. split; [exact HL0|]. split; [|reflexivity].
    intros s n _ _. simpl. lra.
  - set (ls := t0 :: ts) in *.
    assert (Hne : ls <> []) by discriminate.
    destruct (concat_last_rows ls [S * N] Hne Hloc) as (c & Hc & Hcs & Hcr).
    cbn [app] in Hcs.
    destruct (vi_L_S_N c S N _ Hcs) as (r1 & r2 & Hr1 & Hr2 & Hr2s & Hr2g).
    exists (tabulate [S; N] (fun idx => (bget L0 idx - bget r2 idx)%R)).
    split; [reflexivity|]. split.
    + intros s n Hs Hn.
      rewrite get_tabulate by (simpl; tauto).
      rewrite !bget_in_bounds by (rewrite ?HL0, ?Hr2s; simpl; tauto).
      rewrite Hr2g by assumption. f_equal.
      apply (Hcr [s * N + n]). simpl. split; [nia|exact I].
    + intros B k st. change (0 <? length ls) with true. cbv iota.
      unfold bind at 1.
      rewrite (bind_lift _ _ _ _ Hc), (bind_lift _ _ _ _ Hr1),
        (bind_lift _ _ _ _ Hr2).
      unfold lift, sub. rewrite (zip_with_same _ _ _ _ HL0 Hr2s). reflexivity.
Qed.

(** The mean over the sample axis followed by the sum over the points. *)
Lemma vi_mean_sum (L : tensor) (S N : nat) :
  shape L = [S; N] ->
  exists logp,
    reduce_mean_axis L 0 = Some logp
    /\ reduce_sum logp
       = big_sum N (fun n => (big_sum S (fun s => get L [s; n]) / INR S)%R).
Proof.
  intros HL. eexists. split.
  - unfold reduce_mean_axis. apply (reduce_axis_some _ _ _ _ HL). simpl; lia.
  - cbn [remove_at firstn skipn app]. rewrite reduce_sum_tabulate.
    apply big_sum_ext. intros n _. unfold Rmean, fibre. rewrite HL.
    cbn [nth insert_at firstn skipn app].
    rewrite length_map, length_seq. reflexivity.
Qed.

(** *** The reduction steps of the IWVI objective *)

(** [L_NK]: the variational expectation summed over the output
    dimensions. *)
Lemma iwvi_L_NK (var_exp : tensor) (N K Dy : nat) :
  shape var_exp = [N; K; Dy] ->
  exists L_NK,
    reduce_sum_axis var_exp 2 = Some L_NK
    /\ shape L_NK = [N; K]
    /\ forall n k, n < N -> k < K -> get L_NK [n; k] = row_sum var_exp [n; k].
Proof.
  intros Hs. eexists. split; [|split].
  - apply (reduce_axis_some _ _ _ _ Hs). simpl; lia.
  - reflexivity.
  - intros n k Hn Hk. cbn [remove_at firstn skipn app].
    rewrite get_tabulate by (simpl; tauto).
    apply (row_sum_fibre var_exp [N; K] [n; k] Dy Hs eq_refl).
Qed.

(** The guarded subtraction of the LOCAL regularizers. *)
Lemma iwvi_local_step (L0 : tensor) (local_kls : list tensor) (N K : nat) :
  shape L0 = [N; K] ->
  Forall (fun t => exists W, shape t = [N; K; W]) local_kls ->
  exists L,
    shape L = [N; K]
    /\ (forall n k, n < N -> k < K ->
          get L [n; k]
          = (get L0 [n; k]
             - Rsum (map (fun t => row_sum t [n; k]) local_kls))%R)
    /\ forall (B : Type) (c : tensor -> M B) (st : state),
         bind (if 0 <? length local_kls
               then local_kls_NKD <- lift (concat_last local_kls) ;;
                    local_kls_NK <- lift (reduce_sum_axis local_kls_NKD 2) ;;
                    lift (sub L0 local_kls_NK)
               else ret L0) c st
         = c L st.
Proof.
  intros HL0 Hloc. destruct local_kls as [|t0 ts].
  - exists L0. split; [exact HL0|]. split; [|reflexivity].
    intros n k _ _. simpl. lra.
  - set (ls := t0 :: ts) in *.
    assert (Hne : ls <> []) by discriminate.
    destruct (concat_last_rows ls [N; K] Hne Hloc) as (cc & Hc & Hcs & Hcr).
    cbn [app] in Hcs.
    destruct (iwvi_L_NK cc N K _ Hcs) as (r & Hr & Hrs & Hrg).
    exists (tabulate [N; K] (fun idx => (bget L0 idx - bget r idx)%R)).
    split; [reflexivity|]. split.
    + intros n k Hn Hk.
      rewrite get_tabulate by (simpl; tauto).
      rewrite !bget_in_bounds by (rewrite ?HL0, ?Hrs; simpl; tauto).
      rewrite Hrg by assumption. f_equal.
      apply (Hcr [n; k]). simpl. tauto.
    + intros B c st. change (0 <? length ls) with true. cbv iota.
      unfold bind at 1.
      rewrite (bind_lift _ _ _ _ Hc), (bind_lift _ _ _ _ Hr).
      unfold lift, sub. rewrite (zip_with_same _ _ _ _ HL0 Hrs). reflexivity.
Qed.

Lemma sub_scalar_tabulate (sh : list nat) (f : list nat -> R) (c : R) :
  sub_scalar (tabulate sh f) c = tabulate sh (fun idx => (f idx - c)%R).
Proof. unfold sub_scalar, tabulate. simpl. rewrite map_map. reflexivity. Qed.

(** The log-sum-exp over the sample axis, the subtraction of [log K] and
    the sum over the points. *)
Lemma iwvi_lse_sum (L : tensor) (N K : nat) (c : R) :
  shape L = [N; K] -> 1 <= K ->
  exists lse,
    reduce_logsumexp L 1 = Some lse
    /\ reduce_sum (sub_scalar lse c)
       = big_sum N (fun n =>
           (log_sum_exp (map (fun k => get L [n; k]) (seq 0 K)) - c)%R).
Proof.
  intros HL HK. eexists. split.
  - unfold reduce_logsumexp. apply (reduce_axis_some _ _ _ _ HL). simpl; lia.
  - cbn [remove_at firstn skipn app].
    rewrite sub_scalar_tabulate, reduce_sum_tabulate.
    apply big_sum_ext. intros n _. f_equal. unfold fibre. rewrite HL.
    cbn [nth insert_at firstn skipn app].
    apply logsumexp_stable, map_seq_nonempty, HK.
Qed.

(** *** Inversion of successful runs *)

Lemma bind_inv {A B} (m : M A) (k : A -> M B) (st : state) (r : B * state) :
  bind m k st = Some r ->
  exists a st', m st = Some (a, st') /\ k a st' = Some r.
Proof.
  unfold bind. destruct (m st) as [[a st']|]; [|discriminate].
  intros H. exists a, st'. split; [reflexivity | exact H].
Qed.

Lemma lift_inv {A} (o : option A) (st st' : state) (a : A) :
  lift o st = Some (a, st') -> o = Some a /\ st' = st.
Proof.
  unfold lift. destruct o; [|discriminate].
  intros H; inversion H; subst. split; reflexivity.
Qed.

Lemma bind_lift_inv {A B} (o : option A) (k : A -> M B) (st : state)
    (r : B * state) :
  bind (lift o) k st = Some r -> exists a, o = Some a /\ k a st = Some r.
Proof.
  intros H. apply bind_inv in H. destruct H as (a & st' & H1 & H2).
  apply lift_inv in H1. destruct H1 as [H1 ->]. exists a. split; assumption.
Qed.

Lemma call_var_exp_inv (lik : Likelihood) (mean cov y t : tensor)
    (st st' : state) :
  call_var_exp lik mean cov y st = Some (t, st') ->
  variational_expectations lik mean cov y = Some t
  /\ st' = log_call (EvVarExp mean cov y) st.
Proof.
  unfold call_var_exp.
  destruct (variational_expectations lik mean cov y); [|discriminate].
  intros H; inversion H; subst. split; reflexivity.
Qed.

Lemma stateless_ret {A} (a : A) : stateless (ret a).
Proof. intros st b st' H. inversion H; reflexivity. Qed.

Lemma stateless_lift {A} (o : option A) : stateless (lift o).
Proof. intros st a st' H. apply lift_inv in H. tauto. Qed.

Lemma stateless_bind {A B} (m : M A) (k : A -> M B) :
  stateless m -> (forall a, stateless (k a)) -> stateless (bind m k).
Proof.
  intros Hm Hk st b st' H. apply bind_inv in H.
  destruct H as (a & st1 & H1 & H2).
  apply Hm in H1. apply Hk in H2. congruence.
Qed.

Lemma stateless_if {A} (b : bool) (m1 m2 : M A) :
  stateless m1 -> stateless m2 -> stateless (if b then m1 else m2).
Proof. destruct b; tauto. Qed.

End MonadFacts.

Ltac stateless_tac :=
  repeat first
    [ apply stateless_ret
    | apply stateless_lift
    | apply stateless_if
    | apply stateless_bind; [|intro] ].

Ltac inv_lift H a Ha :=
  apply bind_lift_inv in H; destruct H as (a & Ha & H); cbv beta in H.

Section RunFacts.

Context {RT : Runtime}.

(** Every successful run of the VI objective went through these steps. *)
Lemma vi_inv (self : Model) (st st' : state) (v : R) :
  variational_bound_vi self st = Some (v, st') ->
  exists X_tiled Y_tiled XY samples means covs kls kl_types st1 mean cov
         var_exp,
    tile (batch (X self) st) [num_samples self; 1] = Some X_tiled
    /\ tile (batch (Y self) st) [num_samples self; 1] = Some Y_tiled
    /\ concat_last [X_tiled; Y_tiled] = Some XY
    /\ propagate DGP_VI self X_tiled false (Some XY) false st
       = Some ((samples, means, covs, kls, kl_types), st1)
    /\ py_last means = Some mean
    /\ py_last covs = Some cov
    /\ variational_expectations (likelihood self) mean cov Y_tiled
       = Some var_exp
    /\ st' = log_call (EvVarExp mean cov Y_tiled) st1.
Proof.
  unfold variational_bound_vi, build_likelihood. cbn [resolve defines].
  unfold DGP_VI_build_likelihood. intros H.
  rewrite !(bind_eq _ _ _ _ _ (as_tensor_batch _ _)) in H.
  inv_lift H X_tiled HX. inv_lift H Y_tiled HY. inv_lift H XY HXY.
  apply bind_inv in H.
  destruct H as ([[[[samples means] covs] kls] kl_types] & st1 & Hp & H).
  cbv beta iota in H.
  inv_lift H mean Hm. inv_lift H cov Hc.
  apply bind_inv in H. destruct H as (var_exp & st2 & Hv & H).
  apply call_var_exp_inv in Hv. destruct Hv as [Hv ->].
  assert (Hst : st' = log_call (EvVarExp mean cov Y_tiled) st1).
  { revert H. generalize (log_call (EvVarExp mean cov Y_tiled) st1).
    intros s0 H. revert s0 v st' H.
    match goal with |- forall s0 v st', ?m s0 = _ -> _ =>
      change (stateless m) end.
    stateless_tac. }
  exists X_tiled, Y_tiled, XY, samples, means, covs, kls, kl_types, st1,
    mean, cov, var_exp.
  repeat split; assumption.
Qed.

(** Every successful run of the IWVI objective went through these steps. *)
Lemma iwvi_inv (self : Model) (st st' : state) (v : R) :
  variational_bound_iwvi self st = Some (v, st') ->
  exists X1 Y1 X_tiled Y_tiled XY samples means covs kls kl_types st1 mean cov
         diag cov_diag var_exp,
    newaxis1 (batch (X self) st) = Some X1
    /\ tile X1 [1; num_samples self; 1] = Some X_tiled
    /\ newaxis1 (batch (Y self) st) = Some Y1
    /\ tile Y1 [1; num_samples self; 1] = Some Y_tiled
    /\ concat_last [X_tiled; Y_tiled] = Some XY
    /\ propagate DGP_IWVI self X_tiled true (Some XY) true st
       = Some ((samples, means, covs, kls, kl_types), st1)
    /\ py_last covs = Some cov
    /\ matrix_diag_part cov = Some diag
    /\ transpose diag [0; 2; 1] = Some cov_diag
    /\ py_last means = Some mean
    /\ variational_expectations (likelihood self) mean cov_diag Y_tiled
       = Some var_exp
    /\ st' = log_call (EvVarExp mean cov_diag Y_tiled) st1.
Proof.
  unfold variational_bound_iwvi, build_likelihood. cbn [resolve defines].
  unfold DGP_IWVI_build_likelihood. intros H.
  rewrite !(bind_eq _ _ _ _ _ (as_tensor_batch _ _)) in H.
  inv_lift H X1 HX1. inv_lift H X_tiled HX.
  inv_lift H Y1 HY1. inv_lift H Y_tiled HY. inv_lift H XY HXY.
  apply bind_inv in H.
  destruct H as ([[[[samples means] covs] kls] kl_types] & st1 & Hp & H).
  cbv beta iota in H.
  inv_lift H cov Hc. inv_lift H diag Hd. inv_lift H cov_diag Hcd.
  inv_lift H mean Hm.
  apply bind_inv in H. destruct H as (var_exp & st2 & Hv & H).
  apply call_var_exp_inv in Hv. destruct Hv as [Hv ->].
  assert (Hst : st' = log_call (EvVarExp mean cov_diag Y_tiled) st1).
  { revert H. generalize (log_call (EvVarExp mean cov_diag Y_tiled) st1).
    intros s0 H. revert s0 v st' H.
    match goal with |- forall s0 v st', ?m s0 = _ -> _ =>
      change (stateless m) end.
    stateless_tac. }
  exists X1, Y1, X_tiled, Y_tiled, XY, samples, means, covs, kls, kl_types,
    st1, mean, cov, diag, cov_diag, var_exp.
  repeat split; assumption.
Qed.

(** [propagate] on an object of either class is one pass of [chain]. *)
Lemma propagate_runs_chain (c : cls) (self : Model) (x : tensor) (fc : bool)
    (side : option tensor) (sampled : bool) (st : state) :
  propagate c self x fc side sampled st
  = match chain (layers self) x fc side sampled (world st) with
    | None => None
    | Some (steps, w') =>
        Some ((map step_sample steps, map step_mean steps,
               map step_cov steps, map step_kl steps,
               map regularizer_type (layers self)),
              mkState w'
                (calls st ++ layer_events (layers self) steps fc side sampled))
    end.
Proof.
  assert (Hc : propagate c = DGP_VI_propagate) by (destruct c; reflexivity).
  rewrite Hc. unfold DGP_VI_propagate, bind.
  rewrite (propagate_loop_chain (layers self) fc side sampled x [] [] [] [] []).
  destruct (chain (layers self) x fc side sampled (world st))
    as [[steps w']|]; reflexivity.
Qed.

(** *** The two tilings *)

(** [tf.tile(t, [S, 1])] on an (N, D) matrix: row [s * N + n] is row [n]. *)
Lemma tile_flat (t : tensor) (S N D : nat) :
  shape t = [N; D] ->
  exists T,
    tile t [S; 1] = Some T
    /\ shape T = [S * N; D]
    /\ forall s n d, s < S -> n < N -> d < D ->
         get T [s * N + n; d] = get t [n; d].
Proof.
  intros Hs.
  exists (tabulate [N * S; D * 1]
            (fun idx => get t (map2 Nat.modulo idx [N; D]))).
  split; [|split].
  - unfold tile, rank. rewrite Hs. reflexivity.
  - cbn [shape tabulate]. f_equal; [lia | f_equal; lia].
  - intros s n d Hsl Hn Hd.
    rewrite get_tabulate by (cbn [in_bounds]; repeat split; nia).
    cbn [map2]. f_equal. f_equal; [|f_equal].
    + symmetry. apply Nat.mod_unique with (q := s); lia.
    + apply Nat.mod_small; exact Hd.
Qed.

(** [tf.tile(t[:, None, :], [1, K, 1])] on an (N, D) matrix: entry
    [[n; k; d]] is entry [[n; d]]. *)
Lemma tile_paired (t : tensor) (K N D : nat) :
  shape t = [N; D] ->
  exists t1 T,
    newaxis1 t = Some t1
    /\ tile t1 [1; K; 1] = Some T
    /\ shape T = [N; K; D]
    /\ forall n k d, n < N -> k < K -> d < D ->
         get T [n; k; d] = get t [n; d].
Proof.
  intros Hs. exists (mkT [N; 1; D] (data t)).
  exists (tabulate [N * 1; 1 * K; D * 1]
            (fun idx => get (mkT [N; 1; D] (data t))
                            (map2 Nat.modulo idx [N; 1; D]))).
  split; [|split; [|split]].
  - unfold newaxis1. rewrite Hs. reflexivity.
  - reflexivity.
  - cbn [shape tabulate]. f_equal; [lia | f_equal; [lia | f_equal; lia]].
  - intros n k d Hn Hk Hd.
    rewrite get_tabulate by (cbn [in_bounds]; repeat split; lia).
    cbn [map2]. rewrite Nat.mod_1_r, !Nat.mod_small by assumption.
    unfold get. rewrite Hs. cbn [shape data ravel size fold_right].
    f_equal. lia.
Qed.

(** [tf.transpose(tf.matrix_diag_part(cov), [0, 2, 1])] on a covariance of
    shape (N, Dy, K, K): entry [[n; k; d]] is the diagonal entry
    [[n; d; k; k]]. *)
Lemma cov_diag_entries (cov diag cov_diag : tensor) (N Dy K : nat) :
  shape cov = [N; Dy; K; K] ->
  matrix_diag_part cov = Some diag ->
  transpose diag [0; 2; 1] = Some cov_diag ->
  shape cov_diag = [N; K; Dy]
  /\ forall n k d, n < N -> k < K -> d < Dy ->
       get cov_diag [n; k; d] = get cov [n; d; k; k].
Proof.
  intros Hs Hd Ht. unfold matrix_diag_part in Hd. rewrite Hs in Hd.
  cbn [rev app] in Hd. rewrite Nat.min_id in Hd.
  inversion Hd; subst diag; clear Hd.
  unfold transpose, rank in Ht. cbn [shape tabulate length] in Ht.
  change (is_perm [0; 2; 1] 3) with true in Ht. cbv iota in Ht.
  inversion Ht; subst cov_diag; clear Ht.
  split; [reflexivity|].
  intros n k d Hn Hk Hd.
  cbn [map nth].
  rewrite get_tabulate by (cbn [in_bounds]; tauto).
  cbn [map seq nth index_of Nat.eqb].
  rewrite get_tabulate by (cbn [in_bounds]; tauto).
  reflexivity.
Qed.

(** *** Sums *)

Lemma big_sum_S (n : nat) (f : nat -> R) :
  big_sum (S n) f = (big_sum n f + f n)%R.
Proof.
  replace (S n) with (n + 1) by lia. rewrite big_sum_add.
  unfold big_sum at 2. simpl.
  rewrite Nat.add_0_r. lra.
Qed.

Lemma big_sum_plus (n : nat) (f g : nat -> R) :
  big_sum n (fun i => (f i + g i)%R) = (big_sum n f + big_sum n g)%R.
Proof.
  induction n as [|n IH]; [unfold big_sum; simpl; lra|].
  rewrite !big_sum_S, IH. lra.
Qed.

Lemma big_sum_div (n : nat) (f : nat -> R) (c : R) :
  big_sum n (fun i => (f i / c)%R) = (big_sum n f / c)%R.
Proof.
  induction n as [|n IH]; [unfold big_sum; simpl; unfold Rdiv; lra|].
  rewrite !big_sum_S, IH. unfold Rdiv. lra.
Qed.

Lemma big_sum_zero (n : nat) : big_sum n (fun _ => 0%R) = 0%R.
Proof.
  induction n as [|n IH]; [reflexivity | rewrite big_sum_S, IH; lra].
Qed.

Lemma big_sum_swap (n m : nat) (f : nat -> nat -> R) :
  big_sum n (fun i => big_sum m (fun j => f i j))
  = big_sum m (fun j => big_sum n (fun i => f i j)).
Proof.
  induction n as [|n IH].
  - change (0%R = big_sum m (fun _ => 0%R)). symmetry. apply big_sum_zero.
  - rewrite big_sum_S, IH, <- big_sum_plus.
    apply big_sum_ext. intros j _. rewrite big_sum_S. reflexivity.
Qed.

(** *** Regularizer kinds *)

Lemma kl_types_of_propagate (c : cls) (self : Model) (x : tensor) (fc : bool)
    (side : option tensor) (sampled : bool) (st st1 : state)
    (ss ms cs ks : list tensor) (ts : list RegularizerType) :
  propagate c self x fc side sampled st = Some ((ss, ms, cs, ks, ts), st1) ->
  ts = map regularizer_type (layers self).
Proof.
  rewrite propagate_runs_chain.
  destruct (chain (layers self) x fc side sampled (world st))
    as [[steps w']|]; [|discriminate].
  intros H; inversion H; reflexivity.
Qed.

Lemma select_nil (rt : RegularizerType) (kls : list tensor)
    (ls : list Layer) :
  Forall (fun l => regularizer_type l <> rt) ls ->
  select rt kls (map regularizer_type ls) = [].
Proof.
  intros H. unfold select. revert kls.
  induction H as [|l ls Hl _ IH]; intros [|k kls]; try reflexivity.
  cbn [map combine filter snd].
  destruct (regularizer_type l), rt; cbn [RegularizerType_eqb];
    try congruence; apply IH.
Qed.

(** A stack without a LOCAL layer that returned a last mean has a GLOBAL
    regularizer. *)
Lemma global_of_propagate (c : cls) (self : Model) (x : tensor) (fc : bool)
    (side : option tensor) (sampled : bool) (st st1 : state)
    (ss ms cs ks : list tensor) (ts : list RegularizerType) (m : tensor) :
  propagate c self x fc side sampled st = Some ((ss, ms, cs, ks, ts), st1) ->
  py_last ms = Some m ->
  Forall (fun l => regularizer_type l <> LOCAL) (layers self) ->
  select GLOBAL ks ts <> [].
Proof.
  rewrite propagate_runs_chain.
  destruct (layers self) as [|l ls]; cbn [chain].
  - intros H Hm _. inversion H; subst. discriminate Hm.
  - destruct (layer_propagate l (world st) x fc side sampled)
      as [[[[[s m0] c0] k] w1]|]; [|discriminate].
    destruct (chain ls s fc side sampled w1) as [[rest w2]|]; [|discriminate].
    intros H _ Hno. inversion H; subst. inversion Hno as [|? ? Hl _]; subst.
    unfold select. cbn [map combine filter snd step_kl].
    destruct (regularizer_type l); [congruence|].
    cbn [RegularizerType_eqb map fst]. discriminate.
Qed.

Lemma global_sum_typed_true (ft : dtype) (ts : list tensor) :
  ts <> [] \/ ft = float32 -> global_sum_typed ft ts = true.
Proof.
  intros [H|H]; destruct ts; subst; try reflexivity. congruence.
Qed.

(** The last step of both objectives: the sum of the GLOBAL regularizers
    is subtracted, which needs the two operands to be of one type. *)
Lemma subtract_global (a : R) (ts : list tensor) (sh : list nat)
    (st : state) :
  Forall (fun t => shape t = sh) ts ->
  (g <- lift (reduce_sum_list float_type ts) ;;
   lift (sub_typed float_type a g)) st
  = if global_sum_typed float_type ts
    then Some ((a - Rsum (map reduce_sum ts))%R, st)
    else None.
Proof.
  intros H. rewrite (bind_lift _ _ _ _ (reduce_sum_list_some _ _ _ H)).
  unfold lift, sub_typed, global_sum_typed.
  destruct ts; cbn [fst snd]; destruct float_type; reflexivity.
Qed.

Lemma with_num_data_id (self : Model) :
  with_num_data self (num_data self) = self.
Proof. destruct self; reflexivity. Qed.

End RunFacts.

(** ** The two objectives *)

Section Objectives.

Context {RT : Runtime}.

Variables (self : Model) (st : state).
Variables (N Dx Dy : nat).

Let S := num_samples self.

Hypothesis X_shape : shape (batch (X self) st) = [N; Dx].

(** *** A run of the VI objective

    What the tiling returns, what [propagate] returns on the tiled input,
    and what the likelihood answers. *)

Variables (vX_tiled vY_tiled vXY v_mean v_cov v_var_exp : tensor).
Variables (v_samples v_means v_covs v_kls : list tensor).
Variable v_kl_types : list RegularizerType.
Variable v_st : state.

Let v_local := select LOCAL v_kls v_kl_types.
Let v_global := select GLOBAL v_kls v_kl_types.

Hypothesis vi_X_tile : tile (batch (X self) st) [S; 1] = Some vX_tiled.
Hypothesis vi_Y_tile : tile (batch (Y self) st) [S; 1] = Some vY_tiled.
Hypothesis vi_XY_concat : concat_last [vX_tiled; vY_tiled] = Some vXY.
Hypothesis vi_propagated :
  propagate DGP_VI self vX_tiled false (Some vXY) false st
  = Some ((v_samples, v_means, v_covs, v_kls, v_kl_types), v_st).
Hypothesis vi_last_mean : py_last v_means = Some v_mean.
Hypothesis vi_last_cov : py_last v_covs = Some v_cov.
Hypothesis vi_likelihood_answer :
  variational_expectations (likelihood self) v_mean v_cov vY_tiled
  = Some v_var_exp.
Hypothesis vi_var_exp_shape : shape v_var_exp = [S * N; Dy].
Hypothesis vi_local_shapes :
  Forall (fun t => exists W, shape t = [S * N; W]) v_local.
Hypothesis vi_global_shapes : Forall (fun t => shape t = []) v_global.

(** The sum of the GLOBAL regularizers has the float type: some layer is
    GLOBAL, or the float type is float32, the type of an empty sum. *)
Hypothesis vi_global_typed : v_global <> [] \/ float_type = float32.

(** The VI objective reaches its last line with [vi_value] and one more
    entry in the call log, the call of the likelihood; the subtraction in
    that line raises when the sum of the GLOBAL regularizers is not of
    the float type.  The run reads [num_data] in the last step only, so
    the same holds with any other [num_data]. *)
Lemma vi_outcome_at (nd : nat) :
  variational_bound_vi (with_num_data self nd) st
  = if global_sum_typed float_type v_global
    then Some (vi_value nd S N v_var_exp v_local v_global,
               log_call (EvVarExp v_mean v_cov vY_tiled) v_st)
    else None.
Proof.
  unfold variational_bound_vi, build_likelihood. cbn [resolve defines].
  unfold DGP_VI_build_likelihood.
  change (propagate DGP_VI (with_num_data self nd))
    with (propagate DGP_VI self).
  cbn [with_num_data X Y likelihood num_samples num_data].
  rewrite (bind_eq _ _ _ _ _ (as_tensor_batch _ _)).
  rewrite (bind_eq _ _ _ _ _ (as_tensor_batch _ _)).
  rewrite (bind_lift _ _ _ _ vi_X_tile), (bind_lift _ _ _ _ vi_Y_tile),
    (bind_lift _ _ _ _ vi_XY_concat).
  rewrite (bind_eq _ _ _ _ _ vi_propagated). cbv beta iota.
  rewrite (bind_lift _ _ _ _ vi_last_mean), (bind_lift _ _ _ _ vi_last_cov).
  assert (Hcall : call_var_exp (likelihood self) v_mean v_cov vY_tiled v_st
                  = Some (v_var_exp,
                          log_call (EvVarExp v_mean v_cov vY_tiled) v_st)).
  { unfold call_var_exp. rewrite vi_likelihood_answer. reflexivity. }
  rewrite (bind_eq _ _ _ _ _ Hcall).
  destruct (vi_L_S_N v_var_exp S N Dy vi_var_exp_shape)
    as (L_SN & L0 & H1 & H2 & HL0 & HL0g).
  rewrite (bind_lift _ _ _ _ H1).
  assert (H0 : shape0 (batch (X self) st) = Some N)
    by (unfold shape0; rewrite X_shape; reflexivity).
  rewrite (bind_lift _ _ _ _ H0), (bind_lift _ _ _ _ H2).
  destruct (vi_local_step L0 v_local S N HL0 vi_local_shapes)
    as (L & HL & HLg & Hstep).
  fold v_local. fold S. rewrite Hstep.
  destruct (vi_mean_sum L S N HL) as (logp & Hm & Hsum).
  rewrite (bind_lift _ _ _ _ Hm).
  fold v_global.
  rewrite (subtract_global _ _ _ _ vi_global_shapes).
  destruct (global_sum_typed float_type v_global); [|reflexivity].
  unfold vi_value. do 2 f_equal. rewrite Hsum. do 2 f_equal.
  apply big_sum_ext. intros n Hn. f_equal. apply big_sum_ext. intros s Hs.
  rewrite HLg, HL0g by assumption. reflexivity.
Qed.

Lemma vi_returns_at (nd : nat) :
  variational_bound_vi (with_num_data self nd) st
  = Some (vi_value nd S N v_var_exp v_local v_global,
          log_call (EvVarExp v_mean v_cov vY_tiled) v_st).
Proof.
  rewrite vi_outcome_at, (global_sum_typed_true _ _ vi_global_typed).
  reflexivity.
Qed.

Lemma vi_returns :
  variational_bound_vi self st
  = Some (vi_value (num_data self) S N v_var_exp v_local v_global,
          log_call (EvVarExp v_mean v_cov vY_tiled) v_st).
Proof.
  rewrite <- (vi_returns_at (num_data self)), with_num_data_id. reflexivity.
Qed.

(** *** A run of the IWVI objective *)

Variables (wX1 wY1 wX_tiled wY_tiled wXY : tensor).
Variables (w_mean w_cov w_diag w_cov_diag w_var_exp : tensor).
Variables (w_samples w_means w_covs w_kls : list tensor).
Variable w_kl_types : list RegularizerType.
Variable w_st : state.

Let w_local := select LOCAL w_kls w_kl_types.
Let w_global := select GLOBAL w_kls w_kl_types.

Hypothesis iw_X_newaxis : newaxis1 (batch (X self) st) = Some wX1.
Hypothesis iw_X_tile : tile wX1 [1; S; 1] = Some wX_tiled.
Hypothesis iw_Y_newaxis : newaxis1 (batch (Y self) st) = Some wY1.
Hypothesis iw_Y_tile : tile wY1 [1; S; 1] = Some wY_tiled.
Hypothesis iw_XY_concat : concat_last [wX_tiled; wY_tiled] = Some wXY.
Hypothesis iw_propagated :
  propagate DGP_IWVI self wX_tiled true (Some wXY) true st
  = Some ((w_samples, w_means, w_covs, w_kls, w_kl_types), w_st).
Hypothesis iw_last_cov : py_last w_covs = Some w_cov.
Hypothesis iw_diag_part : matrix_diag_part w_cov = Some w_diag.
Hypothesis iw_transpose : transpose w_diag [0; 2; 1] = Some w_cov_diag.
Hypothesis iw_last_mean : py_last w_means = Some w_mean.
Hypothesis iw_likelihood_answer :
  variational_expectations (likelihood self) w_mean w_cov_diag wY_tiled
  = Some w_var_exp.
Hypothesis iw_var_exp_shape : shape w_var_exp = [N; S; Dy].
Hypothesis iw_local_shapes :
  Forall (fun t => exists W, shape t = [N; S; W]) w_local.
Hypothesis iw_global_shapes : Forall (fun t => shape t = []) w_global.
Hypothesis iw_global_typed : w_global <> [] \/ float_type = float32.

(** The IWVI objective reaches its last line with [iwvi_value] and one
    more entry in the call log, the call of the likelihood; again for any
    [num_data]. *)
Lemma iwvi_outcome_at (nd : nat) :
  1 <= S ->
  variational_bound_iwvi (with_num_data self nd) st
  = if global_sum_typed float_type w_global
    then Some (iwvi_value nd S N w_var_exp w_local w_global,
               log_call (EvVarExp w_mean w_cov_diag wY_tiled) w_st)
    else None.
Proof.
  intros S_pos.
  unfold variational_bound_iwvi, build_likelihood. cbn [resolve defines].
  unfold DGP_IWVI_build_likelihood.
  change (propagate DGP_IWVI (with_num_data self nd))
    with (propagate DGP_IWVI self).
  cbn [with_num_data X Y likelihood num_samples num_data].
  rewrite (bind_eq _ _ _ _ _ (as_tensor_batch _ _)).
  rewrite (bind_eq _ _ _ _ _ (as_tensor_batch _ _)).
  rewrite (bind_lift _ _ _ _ iw_X_newaxis), (bind_lift _ _ _ _ iw_X_tile),
    (bind_lift _ _ _ _ iw_Y_newaxis), (bind_lift _ _ _ _ iw_Y_tile),
    (bind_lift _ _ _ _ iw_XY_concat).
  rewrite (bind_eq _ _ _ _ _ iw_propagated). cbv beta iota.
  rewrite (bind_lift _ _ _ _ iw_last_cov), (bind_lift _ _ _ _ iw_diag_part),
    (bind_lift _ _ _ _ iw_transpose), (bind_lift _ _ _ _ iw_last_mean).
  assert (Hcall : call_var_exp (likelihood self) w_mean w_cov_diag wY_tiled w_st
                  = Some (w_var_exp,
                          log_call (EvVarExp w_mean w_cov_diag wY_tiled) w_st)).
  { unfold call_var_exp. rewrite iw_likelihood_answer. reflexivity. }
  rewrite (bind_eq _ _ _ _ _ Hcall).
  destruct (iwvi_L_NK w_var_exp N S Dy iw_var_exp_shape)
    as (L0 & H1 & HL0 & HL0g).
  rewrite (bind_lift _ _ _ _ H1).
  destruct (iwvi_local_step L0 w_local N S HL0 iw_local_shapes)
    as (L & HL & HLg & Hstep).
  fold w_local. rewrite Hstep.
  assert (H0 : shape0 (batch (X self) st) = Some N)
    by (unfold shape0; rewrite X_shape; reflexivity).
  rewrite (bind_lift _ _ _ _ H0).
  destruct (iwvi_lse_sum L N S (ln (INR S)) HL S_pos) as (lse & Hl & Hsum).
  rewrite (bind_lift _ _ _ _ Hl).
  fold w_global.
  rewrite (subtract_global _ _ _ _ iw_global_shapes).
  destruct (global_sum_typed float_type w_global); [|reflexivity].
  unfold iwvi_value. do 2 f_equal. fold S. rewrite Hsum. do 2 f_equal.
  apply big_sum_ext. intros n Hn. do 2 f_equal.
  apply map_ext_in. intros k Hk. apply in_seq in Hk.
  rewrite HLg, HL0g by lia. reflexivity.
Qed.

Lemma iwvi_returns_at (nd : nat) :
  1 <= S ->
  variational_bound_iwvi (with_num_data self nd) st
  = Some (iwvi_value nd S N w_var_exp w_local w_global,
          log_call (EvVarExp w_mean w_cov_diag wY_tiled) w_st).
Proof.
  intros HS.
  rewrite (iwvi_outcome_at nd HS), (global_sum_typed_true _ _ iw_global_typed).
  reflexivity.
Qed.

Lemma iwvi_returns :
  1 <= S ->
  variational_bound_iwvi self st
  = Some (iwvi_value (num_data self) S N w_var_exp w_local w_global,
          log_call (EvVarExp w_mean w_cov_diag wY_tiled) w_st).
Proof.
  intros HS. rewrite <- (iwvi_returns_at (num_data self) HS), with_num_data_id.
  reflexivity.
Qed.

(** *** The two reductions *)

(** C1. For a batch of [N] points and [S >= 1] samples, the VI objective
    reduces the (S, N) log-density terms over the sample axis by their
    arithmetic mean, an average of logs: per point [n] it takes
    [(sum over s of L[s, n]) / S], then sums over the points, scales by
    [num_data / N] and subtracts the GLOBAL regularizers. *)
Theorem vi_reduces_by_mean_of_logs :
  1 <= S -> 1 <= N ->
  variational_bound_vi self st
  = Some ((big_sum N (fun n =>
             big_sum S (fun s =>
               log_density v_var_exp v_local [(s * N + n)%nat])
             / INR S)
           * (INR (num_data self) / INR N)
           - Rsum (map reduce_sum v_global))%R,
          log_call (EvVarExp v_mean v_cov vY_tiled) v_st).
Proof. intros _ _. exact vi_returns. Qed.

(** C2. For a batch of [N] points and [K >= 1] samples, the IWVI objective
    reduces the (N, K) terms over the sample axis by the max-shifted
    log-sum-exp and subtracts [log K]: per point [n] it takes
    [logsumexp_k L[n, k] - log K], where the shifted form equals
    [log (sum over k of exp L[n, k])], then sums over the points, scales
    and subtracts the GLOBAL regularizers. *)
Theorem iwvi_reduces_by_logsumexp :
  1 <= S -> 1 <= N ->
  variational_bound_iwvi self st
  = Some ((big_sum N (fun n =>
             logsumexp (map (fun k => log_density w_var_exp w_local [n; k])
                            (seq 0 S))
             - ln (INR S))
           * (INR (num_data self) / INR N)
           - Rsum (map reduce_sum w_global))%R,
          log_call (EvVarExp w_mean w_cov_diag wY_tiled) w_st)
  /\ forall n,
       logsumexp (map (fun k => log_density w_var_exp w_local [n; k])
                      (seq 0 S))
       = ln (Rsum (map exp
               (map (fun k => log_density w_var_exp w_local [n; k])
                    (seq 0 S)))).
Proof.
  intros HS _.
  assert (Hrow : forall n,
            logsumexp (map (fun k => log_density w_var_exp w_local [n; k])
                           (seq 0 S))
            = log_sum_exp (map (fun k => log_density w_var_exp w_local [n; k])
                               (seq 0 S))).
  { intros n. apply logsumexp_stable, map_seq_nonempty, HS. }
  split; [|exact Hrow].
  rewrite (iwvi_returns HS). unfold iwvi_value. do 4 f_equal.
  apply big_sum_ext. intros n _. rewrite Hrow. reflexivity.
Qed.

(** C3, as amended. The reduction of the VI objective over the sample
    axis is an average of logs: the bound is the arithmetic mean over the
    [S] samples of the single-sample sums [sum over n of L[s, n]], scaled
    by [num_data / N], minus the GLOBAL regularizers.  No logarithm is
    taken of an average. *)
Theorem vi_is_mean_of_sample_bounds :
  1 <= S -> 1 <= N ->
  variational_bound_vi self st
  = Some ((big_sum S (fun s =>
             big_sum N (fun n =>
               log_density v_var_exp v_local [(s * N + n)%nat]))
           / INR S
           * (INR (num_data self) / INR N)
           - Rsum (map reduce_sum v_global))%R,
          log_call (EvVarExp v_mean v_cov vY_tiled) v_st).
Proof.
  intros _ _. rewrite vi_returns. unfold vi_value. do 4 f_equal.
  rewrite big_sum_div. f_equal.
  apply (big_sum_swap N S
           (fun n s => log_density v_var_exp v_local [(s * N + n)%nat])).
Qed.

(** C5. In both objectives the summed per-point term alone is multiplied
    by [num_data / N]; the GLOBAL regularizers are subtracted once,
    unscaled.  With the batch, the layers and the draws fixed, the bound
    at [2 * nd] data points has twice the data term of the bound at [nd]
    and the same GLOBAL term. *)
Theorem num_data_scales_data_term_only :
  1 <= S -> 1 <= N ->
  forall nd : nat,
    let vi_data :=
      (big_sum N (fun n =>
         big_sum S (fun s =>
           log_density v_var_exp v_local [(s * N + n)%nat])
         / INR S)
       * (INR nd / INR N))%R in
    let iwvi_data :=
      (big_sum N (fun n =>
         log_sum_exp (map (fun k => log_density w_var_exp w_local [n; k])
                          (seq 0 S))
         - ln (INR S))
       * (INR nd / INR N))%R in
    variational_bound_vi (with_num_data self nd) st
    = Some ((vi_data - Rsum (map reduce_sum v_global))%R,
            log_call (EvVarExp v_mean v_cov vY_tiled) v_st)
    /\ variational_bound_vi (with_num_data self (2 * nd)) st
       = Some ((2 * vi_data - Rsum (map reduce_sum v_global))%R,
               log_call (EvVarExp v_mean v_cov vY_tiled) v_st)
    /\ variational_bound_iwvi (with_num_data self nd) st
       = Some ((iwvi_data - Rsum (map reduce_sum w_global))%R,
               log_call (EvVarExp w_mean w_cov_diag wY_tiled) w_st)
    /\ variational_bound_iwvi (with_num_data self (2 * nd)) st
       = Some ((2 * iwvi_data - Rsum (map reduce_sum w_global))%R,
               log_call (EvVarExp w_mean w_cov_diag wY_tiled) w_st).
Proof.
  intros HS _ nd vi_data iwvi_data.
  assert (H2 : forall D : R,
            (D * (INR (2 * nd) / INR N) = 2 * (D * (INR nd / INR N)))%R).
  { intros D. rewrite mult_INR. simpl INR. unfold Rdiv. lra. }
  repeat split.
  - apply vi_returns_at.
  - rewrite vi_returns_at. unfold vi_value, vi_data. rewrite H2. reflexivity.
  - apply (iwvi_returns_at nd HS).
  - rewrite (iwvi_returns_at (2 * nd) HS). unfold iwvi_value, iwvi_data.
    rewrite H2. reflexivity.
Qed.

(** C9. A stack without LOCAL layers is no error: both objectives skip
    the subtraction of the LOCAL regularizers (the concatenation of an
    empty list, which the guard [len(local_kls) > 0] avoids, would raise)
    and reduce the summed variational expectations alone.  The GLOBAL
    list has no such guard.  On a stack without GLOBAL layers both
    objectives reach their last line, where the sum of the empty list is
    a float32 zero: under the float type float32 zero is subtracted,
    under float64 the subtraction raises and no bound is returned. *)
Theorem local_list_is_guarded_global_list_is_not :
  1 <= S -> 1 <= N ->
  concat_last [] = None
  /\ (no_layer_declares LOCAL self ->
      variational_bound_vi self st
      = Some ((big_sum N (fun n =>
                 big_sum S (fun s => row_sum v_var_exp [(s * N + n)%nat])
                 / INR S)
               * (INR (num_data self) / INR N)
               - Rsum (map reduce_sum v_global))%R,
              log_call (EvVarExp v_mean v_cov vY_tiled) v_st)
      /\ variational_bound_iwvi self st
         = Some ((big_sum N (fun n =>
                    log_sum_exp (map (fun k => row_sum w_var_exp [n; k])
                                     (seq 0 S))
                    - ln (INR S))
                  * (INR (num_data self) / INR N)
                  - Rsum (map reduce_sum w_global))%R,
                 log_call (EvVarExp w_mean w_cov_diag wY_tiled) w_st))
  /\ (no_layer_declares GLOBAL self ->
      variational_bound_vi self st
      = match float_type with
        | float32 =>
            Some ((big_sum N (fun n =>
                     big_sum S (fun s =>
                       log_density v_var_exp v_local [(s * N + n)%nat])
                     / INR S)
                   * (INR (num_data self) / INR N)
                   - 0)%R,
                  log_call (EvVarExp v_mean v_cov vY_tiled) v_st)
        | float64 => None
        end
      /\ variational_bound_iwvi self st
         = match float_type with
           | float32 =>
               Some ((big_sum N (fun n =>
                        log_sum_exp
                          (map (fun k => log_density w_var_exp w_local [n; k])
                               (seq 0 S))
                        - ln (INR S))
                      * (INR (num_data self) / INR N)
                      - 0)%R,
                     log_call (EvVarExp w_mean w_cov_diag wY_tiled) w_st)
           | float64 => None
           end).
Proof.
  intros HS _.
  pose proof (kl_types_of_propagate _ _ _ _ _ _ _ _ _ _ _ _ _ vi_propagated)
    as Hvt.
  pose proof (kl_types_of_propagate _ _ _ _ _ _ _ _ _ _ _ _ _ iw_propagated)
    as Hwt.
  assert (Hd : forall ve li, log_density ve [] li = row_sum ve li).
  { intros ve li. unfold log_density. simpl. lra. }
  pose proof (vi_outcome_at (num_data self)) as Hvi.
  pose proof (iwvi_outcome_at (num_data self) HS) as Hiw.
  rewrite with_num_data_id in Hvi, Hiw.
  split; [reflexivity|]. split; intros Hno; split.
  - rewrite Hvi, global_sum_typed_true
      by (left;
          exact (global_of_propagate _ _ _ _ _ _ _ _ _ _ _ _ _ _
                   vi_propagated vi_last_mean Hno)).
    unfold vi_value.
    replace v_local with (@nil tensor)
      by (unfold v_local; rewrite Hvt; symmetry; apply select_nil, Hno).
    do 4 f_equal. apply big_sum_ext. intros n _. f_equal.
    apply big_sum_ext. intros s _. apply Hd.
  - rewrite Hiw, global_sum_typed_true
      by (left;
          exact (global_of_propagate _ _ _ _ _ _ _ _ _ _ _ _ _ _
                   iw_propagated iw_last_mean Hno)).
    unfold iwvi_value.
    replace w_local with (@nil tensor)
      by (unfold w_local; rewrite Hwt; symmetry; apply select_nil, Hno).
    do 4 f_equal. apply big_sum_ext. intros n _. do 2 f_equal.
    apply map_ext. intros k. apply Hd.
  - rewrite Hvi. unfold vi_value.
    replace v_global with (@nil tensor)
      by (unfold v_global; rewrite Hvt; symmetry; apply select_nil, Hno).
    cbn [global_sum_typed]. case float_type; reflexivity.
  - rewrite Hiw. unfold iwvi_value.
    replace w_global with (@nil tensor)
      by (unfold w_global; rewrite Hwt; symmetry; apply select_nil, Hno).
    cbn [global_sum_typed]. case float_type; reflexivity.
Qed.

(** *** One sample, full batches, and the two reductions compared *)

Lemma ln_le_mono (x y : R) : (0 < x)%R -> (x <= y)%R -> (ln x <= ln y)%R.
Proof.
  intros Hx [Hlt|Heq]; [|subst; lra].
  left. apply ln_increasing; assumption.
Qed.

Lemma Rsum_exp_ge_tangent (m : R) (l : list R) :
  (exp m * (INR (length l) + Rsum l - INR (length l) * m)
   <= Rsum (map exp l))%R.
Proof.
  induction l as [|x l IH].
  - simpl. lra.
  - cbn [length map Rsum fold_right]. rewrite S_INR.
    assert (Hx : (exp m * (1 + (x - m)) <= exp x)%R).
    { replace (exp x) with (exp m * exp (x - m))%R
        by (rewrite <- exp_plus; f_equal; lra).
      apply Rmult_le_compat_l; [left; apply exp_pos | apply exp_ineq1_le]. }
    unfold Rsum in IH. lra.
Qed.

(** The mean of a non-empty list is at most its log-sum-exp minus the
    logarithm of its length. *)
Lemma mean_le_log_mean_exp (l : list R) :
  l <> [] -> (Rmean l <= log_sum_exp l - ln (INR (length l)))%R.
Proof.
  intros Hne.
  assert (HK : (0 < INR (length l))%R).
  { apply lt_0_INR. destruct l; [congruence | simpl; lia]. }
  pose proof (Rsum_exp_ge_tangent (Rmean l) l) as H.
  replace (INR (length l) + Rsum l - INR (length l) * Rmean l)%R
    with (INR (length l)) in H
    by (unfold Rmean; field; lra).
  assert (Hpos : (0 < exp (Rmean l) * INR (length l))%R)
    by (apply Rmult_lt_0_compat; [apply exp_pos | exact HK]).
  apply ln_le_mono in H; [|exact Hpos].
  rewrite ln_mult, ln_exp in H by (apply exp_pos || exact HK).
  unfold log_sum_exp. lra.
Qed.

Lemma big_sum_le (n : nat) (f g : nat -> R) :
  (forall i, i < n -> (f i <= g i)%R) -> (big_sum n f <= big_sum n g)%R.
Proof.
  induction n as [|n IH]; intros H.
  - unfold big_sum. simpl. lra.
  - rewrite !big_sum_S.
    assert (big_sum n f <= big_sum n g)%R by (apply IH; intros; apply H; lia).
    specialize (H n (Nat.lt_succ_diag_r n)). lra.
Qed.

(** X10. With one sample the VI objective takes no average: it returns the sum
    over the points of the log-density terms, times [num_data / N], minus
    the GLOBAL regularizers. *)
Theorem vi_with_one_sample :
  S = 1 -> 1 <= N ->
  variational_bound_vi self st
  = Some ((big_sum N (fun n => log_density v_var_exp v_local [n])
           * (INR (num_data self) / INR N)
           - Rsum (map reduce_sum v_global))%R,
          log_call (EvVarExp v_mean v_cov vY_tiled) v_st).
Proof.
  intros HS _. rewrite vi_returns. unfold vi_value. rewrite HS.
  do 4 f_equal. apply big_sum_ext. intros n _.
  unfold big_sum. cbn [seq map Rsum fold_right INR Nat.mul Nat.add].
  unfold Rdiv. rewrite Rinv_1. lra.
Qed.

(** X11. With one sample the IWVI objective has the same form: the
    log-sum-exp of one term is the term and [log 1] is zero. *)
Theorem iwvi_with_one_sample :
  S = 1 -> 1 <= N ->
  variational_bound_iwvi self st
  = Some ((big_sum N (fun n => log_density w_var_exp w_local [n; 0%nat])
           * (INR (num_data self) / INR N)
           - Rsum (map reduce_sum w_global))%R,
          log_call (EvVarExp w_mean w_cov_diag wY_tiled) w_st).
Proof.
  intros HS _.
  rewrite iwvi_returns by (rewrite HS; constructor).
  unfold iwvi_value. rewrite HS.
  do 4 f_equal. apply big_sum_ext. intros n _.
  unfold log_sum_exp. cbn [seq map Rsum fold_right INR].
  rewrite Rplus_0_r, ln_exp, ln_1. lra.
Qed.

(** X12. On the same log-density terms and the same GLOBAL sum, the IWVI
    objective is at least the VI objective: per point, the log-sum-exp
    minus [log K] is at least the mean. *)
Theorem iwvi_bound_dominates_vi_bound :
  1 <= S -> 1 <= N ->
  (forall n k, n < N -> k < S ->
     log_density w_var_exp w_local [n; k]
     = log_density v_var_exp v_local [k * N + n]) ->
  Rsum (map reduce_sum w_global) = Rsum (map reduce_sum v_global) ->
  exists a b,
    variational_bound_vi self st
    = Some (a, log_call (EvVarExp v_mean v_cov vY_tiled) v_st)
    /\ variational_bound_iwvi self st
       = Some (b, log_call (EvVarExp w_mean w_cov_diag wY_tiled) w_st)
    /\ (a <= b)%R.
Proof.
  intros HS HN Hsame Hg.
  do 2 eexists. split; [apply vi_returns|]. split; [apply (iwvi_returns HS)|].
  unfold vi_value, iwvi_value. rewrite Hg.
  assert (Hscale : (0 <= INR (num_data self) / INR N)%R).
  { apply Rmult_le_pos; [apply pos_INR|].
    left. apply Rinv_0_lt_compat, lt_0_INR. lia. }
  apply Rplus_le_compat_r, Rmult_le_compat_r; [exact Hscale|].
  apply big_sum_le. intros n Hn.
  pose proof (mean_le_log_mean_exp
                (map (fun k => log_density w_var_exp w_local [n; k])
                     (seq 0 S))
                (map_seq_nonempty _ _ HS)) as H.
  unfold Rmean in H. rewrite length_map, length_seq in H.
  replace (big_sum S (fun s => log_density v_var_exp v_local [s * N + n]))
    with (Rsum (map (fun k => log_density w_var_exp w_local [n; k])
                    (seq 0 S))).
  - exact H.
  - apply big_sum_ext. intros k Hk. apply Hsame; assumption.
Qed.

(** X13. A model built without a minibatch size trains on the full data, so
    the correction [num_data / N] is one: both objectives return the
    summed per-point terms minus the GLOBAL regularizers. *)
Theorem full_batch_is_unscaled (Xf Yf : tensor) (ls : list Layer)
    (lik : Likelihood) (ns : nat) :
  DGP_VI_init Xf Yf ls lik ns None = Some self ->
  1 <= S -> 1 <= N ->
  variational_bound_vi self st
  = Some ((big_sum N (fun n =>
             big_sum S (fun s =>
               log_density v_var_exp v_local [(s * N + n)%nat])
             / INR S)
           - Rsum (map reduce_sum v_global))%R,
          log_call (EvVarExp v_mean v_cov vY_tiled) v_st)
  /\ variational_bound_iwvi self st
     = Some ((big_sum N (fun n =>
                log_sum_exp
                  (map (fun k => log_density w_var_exp w_local [n; k])
                       (seq 0 S))
                - ln (INR S))
              - Rsum (map reduce_sum w_global))%R,
             log_call (EvVarExp w_mean w_cov_diag wY_tiled) w_st).
Proof.
  intros Hinit HS HN.
  assert (Hnd : num_data self = N).
  { unfold DGP_VI_init in Hinit.
    destruct (shape0 Xf) as [n|] eqn:E0; [|discriminate].
    injection Hinit as Hinit.
    assert (HXs : X self = DataHolder Xf) by (rewrite <- Hinit; reflexivity).
    assert (Hn : num_data self = n) by (rewrite <- Hinit; reflexivity).
    pose proof X_shape as HX. rewrite HXs in HX. cbn [batch] in HX.
    unfold shape0 in E0. rewrite HX in E0. congruence. }
  assert (Hone : (INR (num_data self) / INR N = 1)%R).
  { rewrite Hnd. unfold Rdiv. apply Rinv_r, not_0_INR. lia. }
  split.
  - rewrite vi_returns. unfold vi_value. rewrite Hone, Rmult_1_r. reflexivity.
  - rewrite (iwvi_returns HS). unfold iwvi_value.
    rewrite Hone, Rmult_1_r. reflexivity.
Qed.

End Objectives.

(** ** Propagation, tiling and the classes *)

Section Structure.

Context {RT : Runtime}.

Lemma chain_inputs (ls : list Layer) (fc : bool) (side : option tensor)
    (sampled : bool) :
  forall (x : tensor) (w w' : World)
         (steps : list (tensor * (tensor * tensor * tensor * tensor))),
    chain ls x fc side sampled w = Some (steps, w') ->
    length steps = length ls
    /\ map fst steps = firstn (length steps) (x :: map step_sample steps).
Proof.
  induction ls as [|l ls IH]; intros x w w' steps H.
  - inversion H; subst. split; reflexivity.
  - cbn [chain] in H.
    destruct (layer_propagate l w x fc side sampled)
      as [[[[[s m] c] k] w1]|]; [|discriminate].
    destruct (chain ls s fc side sampled w1) as [[rest w2]|] eqn:E;
      [|discriminate].
    inversion H; subst. destruct (IH _ _ _ _ E) as [Hl Hi].
    cbn [length map fst step_sample firstn]. split; [congruence|].
    f_equal. exact Hi.
Qed.

(** C8. For every input and flag setting, [propagate] calls each layer of
    the stack once, in construction order, on the sample (not the mean)
    the layer before it returned, the first one on the input; it returns
    the samples, means, covariances, regularizers and regularizer kinds
    of the layers in layer order, without the initial input. *)
Theorem propagate_feeds_samples_in_order (c : cls) (self : Model)
    (x : tensor) (full_cov : bool) (side : option tensor) (sampled : bool)
    (st : state) :
  propagate c self x full_cov side sampled st
  = match chain (layers self) x full_cov side sampled (world st) with
    | None => None
    | Some (steps, w') =>
        Some ((map step_sample steps, map step_mean steps,
               map step_cov steps, map step_kl steps,
               map regularizer_type (layers self)),
              mkState w'
                (calls st
                 ++ layer_events (layers self) steps full_cov side sampled))
    end
  /\ forall steps w',
       chain (layers self) x full_cov side sampled (world st)
       = Some (steps, w') ->
       length steps = length (layers self)
       /\ map fst steps = firstn (length steps) (x :: map step_sample steps).
Proof.
  split; [apply propagate_runs_chain|].
  intros steps w' H. exact (chain_inputs _ _ _ _ _ _ _ _ H).
Qed.

(** C10. [DGP_IWVI] overrides [_build_likelihood] only: every other
    method resolves to the definition in [DGP_VI], so [propagate] and the
    four predictive operations of the two classes return the same result
    and leave the same state for the same model, input and state. *)
Theorem iwvi_inherits_predictive_methods :
  (forall m, m <> m_build_likelihood ->
     resolve DGP_IWVI m = Some DGP_VI /\ resolve DGP_VI m = Some DGP_VI)
  /\ resolve DGP_IWVI m_build_likelihood = Some DGP_IWVI
  /\ (forall self x full_cov side sampled st,
        propagate DGP_IWVI self x full_cov side sampled st
        = propagate DGP_VI self x full_cov side sampled st)
  /\ (forall self x full_cov st,
        build_predict DGP_IWVI self x full_cov st
        = build_predict DGP_VI self x full_cov st)
  /\ (forall self x full_cov st,
        build_predict_decomp DGP_IWVI self x full_cov st
        = build_predict_decomp DGP_VI self x full_cov st)
  /\ (forall self x S st,
        predict_f_multisample DGP_IWVI self x S st
        = predict_f_multisample DGP_VI self x S st)
  /\ (forall self x S st,
        predict_y_samples DGP_IWVI self x S st
        = predict_y_samples DGP_VI self x S st).
Proof.
  split.
  { intros m Hm. destruct m; try congruence; split; reflexivity. }
  repeat split.
Qed.


(** C4. The two objectives tile and propagate differently.  The VI
    objective tiles [X] and [Y] to shape (S * N, ...), where row
    [s * N + n] is row [n] for every sample [s] and point [n], and calls
    every layer with [full_cov = False] and
    [is_sampled_local_regularizer = False]; the IWVI objective tiles them
    to shape (N, K, ...), where entry [[n; k]] is row [n], and calls every
    layer with both flags [True].  Either hands the layers the
    concatenation of the tiled [X] and [Y] as side information. *)
Theorem objectives_tile_and_propagate_differently (self : Model)
    (st st' st'' : state) (N Dx Dy : nat) (v w : R) :
  shape (batch (X self) st) = [N; Dx] ->
  shape (batch (Y self) st) = [N; Dy] ->
  variational_bound_vi self st = Some (v, st') ->
  variational_bound_iwvi self st = Some (w, st'') ->
  (exists X_tiled Y_tiled XY steps mean cov,
      shape X_tiled = [num_samples self * N; Dx]
      /\ (forall s n d, s < num_samples self -> n < N -> d < Dx ->
            get X_tiled [s * N + n; d] = get (batch (X self) st) [n; d])
      /\ shape Y_tiled = [num_samples self * N; Dy]
      /\ (forall s n d, s < num_samples self -> n < N -> d < Dy ->
            get Y_tiled [s * N + n; d] = get (batch (Y self) st) [n; d])
      /\ concat_last [X_tiled; Y_tiled] = Some XY
      /\ chain (layers self) X_tiled false (Some XY) false (world st)
         = Some (steps, world st')
      /\ calls st'
         = calls st
           ++ layer_events (layers self) steps false (Some XY) false
           ++ [EvVarExp mean cov Y_tiled])
  /\ (exists X_tiled Y_tiled XY steps mean cov_diag,
        shape X_tiled = [N; num_samples self; Dx]
        /\ (forall n k d, n < N -> k < num_samples self -> d < Dx ->
              get X_tiled [n; k; d] = get (batch (X self) st) [n; d])
        /\ shape Y_tiled = [N; num_samples self; Dy]
        /\ (forall n k d, n < N -> k < num_samples self -> d < Dy ->
              get Y_tiled [n; k; d] = get (batch (Y self) st) [n; d])
        /\ concat_last [X_tiled; Y_tiled] = Some XY
        /\ chain (layers self) X_tiled true (Some XY) true (world st)
           = Some (steps, world st'')
        /\ calls st''
           = calls st
             ++ layer_events (layers self) steps true (Some XY) true
             ++ [EvVarExp mean cov_diag Y_tiled]).
Proof.
  intros HX HY Hvi Hiw. split.
  - destruct (vi_inv _ _ _ _ Hvi)
      as (X_tiled & Y_tiled & XY & ss & ms & cs & ks & ts & st1 & mean & cov
          & ve & HXt & HYt & HXY & Hp & _ & _ & _ & Hst).
    destruct (tile_flat _ (num_samples self) _ _ HX) as (TX & E1 & HTX & HgX).
    destruct (tile_flat _ (num_samples self) _ _ HY) as (TY & E2 & HTY & HgY).
    rewrite HXt in E1. rewrite HYt in E2.
    inversion E1; subst TX. inversion E2; subst TY.
    rewrite propagate_runs_chain in Hp.
    destruct (chain (layers self) X_tiled false (Some XY) false (world st))
      as [[steps w']|] eqn:Hch; [|discriminate].
    inversion Hp; subst. exists X_tiled, Y_tiled, XY, steps, mean, cov.
    cbn [log_call world calls]. rewrite <- app_assoc. repeat split; assumption.
  - destruct (iwvi_inv _ _ _ _ Hiw)
      as (X1 & Y1 & X_tiled & Y_tiled & XY & ss & ms & cs & ks & ts & st1
          & mean & cov & diag & cov_diag & ve
          & HX1 & HXt & HY1 & HYt & HXY & Hp & _ & _ & _ & _ & _ & Hst).
    destruct (tile_paired _ (num_samples self) _ _ HX)
      as (tx & TX & E0 & E1 & HTX & HgX).
    destruct (tile_paired _ (num_samples self) _ _ HY)
      as (ty & TY & F0 & E2 & HTY & HgY).
    rewrite HX1 in E0. inversion E0; subst tx.
    rewrite HY1 in F0. inversion F0; subst ty.
    rewrite HXt in E1. rewrite HYt in E2.
    inversion E1; subst TX. inversion E2; subst TY.
    rewrite propagate_runs_chain in Hp.
    destruct (chain (layers self) X_tiled true (Some XY) true (world st))
      as [[steps w']|] eqn:Hch; [|discriminate].
    inversion Hp; subst. exists X_tiled, Y_tiled, XY, steps, mean, cov_diag.
    cbn [log_call world calls]. rewrite <- app_assoc. repeat split; assumption.
Qed.

(** C6, as amended. In the IWVI objective the tensor handed to the
    likelihood with the final mean is the diagonal of each per-point
    K x K block of the final covariance, transposed to shape (N, K, Dy):
    entry [[n; k; d]] is the variance [cov[n, d, k, k]].  The covariances
    between different samples are dropped, as the cross-point terms
    are. *)
Theorem iwvi_passes_diagonal_variances (self : Model) (st st' : state)
    (v : R) :
  variational_bound_iwvi self st = Some (v, st') ->
  exists X_tiled Y_tiled XY samples means covs kls kl_types st1 mean cov
         cov_diag,
    propagate DGP_IWVI self X_tiled true (Some XY) true st
    = Some ((samples, means, covs, kls, kl_types), st1)
    /\ py_last means = Some mean
    /\ py_last covs = Some cov
    /\ calls st' = calls st1 ++ [EvVarExp mean cov_diag Y_tiled]
    /\ forall N Dy K,
         shape cov = [N; Dy; K; K] ->
         shape cov_diag = [N; K; Dy]
         /\ forall n k d, n < N -> k < K -> d < Dy ->
              get cov_diag [n; k; d] = get cov [n; d; k; k].
Proof.
  intros H.
  destruct (iwvi_inv _ _ _ _ H)
    as (X1 & Y1 & X_tiled & Y_tiled & XY & ss & ms & cs & ks & ts & st1
        & mean & cov & diag & cov_diag & ve
        & _ & _ & _ & _ & _ & Hp & Hc & Hd & Ht & Hm & _ & Hst).
  exists X_tiled, Y_tiled, XY, ss, ms, cs, ks, ts, st1, mean, cov, cov_diag.
  subst st'. repeat split; try assumption.
  - apply (cov_diag_entries cov diag cov_diag N Dy K); assumption.
  - apply (cov_diag_entries cov diag cov_diag N Dy K); assumption.
Qed.

End Structure.

(** ** The statements on concrete stacks *)

Ltac eval_R :=
  cbv - [Rplus Rminus Rmult Rdiv Rinv Ropp IZR ln exp sqrt Rmax].

Ltac run_hyps :=
  lazymatch goal with
  | |- Forall _ _ => repeat constructor; try (eexists; reflexivity)
  | |- _ <= _ => cbn; lia
  | |- _ \/ _ => left; eval_R; discriminate
  | |- _ => first [reflexivity | eval_R; reflexivity]
  end.

(** On [echo_model] every log-density term is [2 - 2] and the GLOBAL
    regularizer is 1: the VI bound is -1. *)
Lemma vi_reduces_by_mean_of_logs_witness :
  exists st', variational_bound_vi echo_model state0 = Some ((-1)%R, st').
Proof.
  eexists.
  erewrite (@vi_reduces_by_mean_of_logs unit_runtime echo_model state0 1 1 1);
    try run_hyps.
  f_equal. f_equal. eval_R. lra.
Defined.

Lemma iwvi_reduces_by_logsumexp_witness :
  exists v st', variational_bound_iwvi echo_model state0 = Some (v, st').
Proof.
  edestruct (@iwvi_reduces_by_logsumexp unit_runtime echo_model state0 1 1 1)
    as [H _]; try run_hyps.
  eexists. eexists. exact H.
Defined.

Lemma vi_is_mean_of_sample_bounds_witness :
  exists st', variational_bound_vi echo_model state0 = Some ((-1)%R, st').
Proof.
  eexists.
  erewrite (@vi_is_mean_of_sample_bounds unit_runtime echo_model state0 1 1 1);
    try run_hyps.
  f_equal. f_equal. eval_R. lra.
Defined.

(** On [global_model] the per-point term is 2 and the GLOBAL regularizer
    is 1: with 3 data points the VI bound is [2 * 3 - 1], with 6 it is
    [2 * 6 - 1]. *)
Lemma num_data_scales_data_term_only_witness :
  exists st' w st'',
    variational_bound_vi (with_num_data global_model 3) state0
    = Some (5%R, st')
    /\ variational_bound_vi (with_num_data global_model 6) state0
       = Some (11%R, st')
    /\ variational_bound_iwvi (with_num_data global_model 3) state0
       = Some ((w - 1)%R, st'')
    /\ variational_bound_iwvi (with_num_data global_model 6) state0
       = Some ((2 * w - 1)%R, st'').
Proof.
  edestruct (@num_data_scales_data_term_only unit_runtime global_model state0
               1 1 1) with (nd := 3) as (H1 & H2 & H3 & H4);
    try run_hyps.
  change 6 with (2 * 3). rewrite H1, H2, H3, H4.
  eexists. eexists. eexists. repeat split.
  - f_equal. f_equal. eval_R. lra.
  - f_equal. f_equal. eval_R. lra.
  - f_equal. f_equal. f_equal. eval_R. lra.
  - f_equal. f_equal. f_equal. eval_R. lra.
Defined.

(** [global_model] has no LOCAL layer: both objectives return.
    [local_model] has no GLOBAL layer and the float type is float64:
    neither objective returns. *)
Lemma local_list_is_guarded_global_list_is_not_witness :
  (exists w st' st'',
     variational_bound_vi global_model state0 = Some (1%R, st')
     /\ variational_bound_iwvi global_model state0 = Some (w, st''))
  /\ variational_bound_vi local_model state0 = None
  /\ variational_bound_iwvi local_model state0 = None.
Proof.
  split.
  - edestruct (@local_list_is_guarded_global_list_is_not unit_runtime
                 global_model state0 1 1 1) as (_ & Hlocal & _);
      try run_hyps.
    destruct Hlocal as [H1 H2].
    { repeat constructor. discriminate. }
    rewrite H1, H2. eexists. eexists. eexists. split.
    + f_equal. f_equal. eval_R. lra.
    + reflexivity.
  - edestruct (@local_list_is_guarded_global_list_is_not unit_runtime
                 local_model state0 1 1 1) as (_ & _ & Hglobal);
      try run_hyps.
    apply Hglobal. repeat constructor. discriminate.
Defined.

(** On [echo_model] (one point, two samples): the VI tiling has shape
    (2, 1) and its second row is the one row of [X]; the IWVI tiling has
    shape (1, 2, 1) and its second sample of the one point is that row;
    the logs hold the layer calls with the flags of each objective. *)
Lemma objectives_tile_and_propagate_differently_witness :
  exists (st' st'' : @state unit_runtime) Xv XYv stepsv Xw XYw stepsw
         (lastv lastw : @event unit_runtime),
    shape Xv = [2; 1] /\ get Xv [1; 0] = 2%R
    /\ calls st'
       = layer_events (layers echo_model) stepsv false (Some XYv) false
         ++ [lastv]
    /\ shape Xw = [1; 2; 1] /\ get Xw [0; 1; 0] = 2%R
    /\ calls st''
       = layer_events (layers echo_model) stepsw true (Some XYw) true
         ++ [lastw].
Proof.
  edestruct (@objectives_tile_and_propagate_differently unit_runtime
               echo_model state0)
    as ((Xv & Yv & XYv & stepsv & mv & cv & HXs & HXg & _ & _ & _ & _ & Hcv)
        & (Xw & Yw & XYw & stepsw & mw & cw & HWs & HWg & _ & _ & _ & _ & Hcw));
    try run_hyps.
  eexists; eexists.
  exists Xv, XYv, stepsv, Xw, XYw, stepsw.
  eexists; eexists.
  split; [exact HXs|]. split; [apply (HXg 1 0 0); cbn; lia|].
  split; [exact Hcv|].
  split; [exact HWs|]. split; [apply (HWg 0 1 0); cbn; lia|].
  exact Hcw.
Defined.

(** On [coupled_model] the final covariance is the block [[1, 2], [3, 4]]
    of the one point; the likelihood is handed its diagonal. *)
Lemma iwvi_passes_diagonal_variances_witness :
  exists (st1 st' : @state unit_runtime) mean cov_diag Y_tiled,
    calls st' = calls st1 ++ [EvVarExp mean cov_diag Y_tiled]
    /\ shape cov_diag = [1; 2; 1]
    /\ get cov_diag [0; 0; 0] = get coupled_cov [0; 0; 0; 0]
    /\ get cov_diag [0; 1; 0] = get coupled_cov [0; 0; 1; 1].
Proof.
  edestruct (@iwvi_passes_diagonal_variances unit_runtime coupled_model state0)
    as (Xt & Yt & XY & ss & ms & cs & ks & ts & st1 & mean & cov & cd
        & Hp & Hm & Hc & Hcalls & Hd);
    try run_hyps.
  assert (Ecov : cov = coupled_cov).
  { cbv - [IZR] in Hp. inversion Hp; subst. cbv - [IZR] in Hc.
    inversion Hc. reflexivity. }
  subst cov. destruct (Hd 1 1 2 eq_refl) as [Hs Hg].
  eexists; eexists. exists mean, cd, Yt.
  split; [exact Hcalls|]. split; [exact Hs|].
  split; [apply (Hg 0 0 0); lia | apply (Hg 0 1 0); lia].
Defined.

(** ** Where the code departs from the specification *)

(** C3, as stated, fails.  On [draw_model] the two samples of the one
    point have the log-density terms 0 and [ln 3]: the VI objective
    returns their mean [ln 3 / 2], while the log of the average of their
    exponentials is [ln ((1 + 3) / 2) = ln 2]. *)
Lemma vi_not_log_of_mean :
  (exists st',
     variational_bound_vi draw_model state0 = Some ((ln 3 / 2)%R, st'))
  /\ vi_value_log_of_average 1 2 1 (mkT [2; 1] [0%R; ln 3]) [] [scalar 0]
     = ln 2
  /\ forall st',
       variational_bound_vi draw_model state0
       <> Some (vi_value_log_of_average 1 2 1 (mkT [2; 1] [0%R; ln 3]) []
                  [scalar 0], st').
Proof.
  assert (Hrun : exists st',
             variational_bound_vi draw_model state0
             = Some ((ln 3 / 2)%R, st')).
  { eexists.
    erewrite (@vi_returns unit_runtime draw_model state0 1 1 1);
      try run_hyps.
    f_equal. f_equal. eval_R. lra. }
  assert (Hval : vi_value_log_of_average 1 2 1 (mkT [2; 1] [0%R; ln 3]) []
                   [scalar 0] = ln 2).
  { eval_R.
    replace (0 + 0 - 0)%R with 0%R by lra.
    replace (ln 3 + 0 - 0)%R with (ln 3) by lra.
    rewrite exp_0, exp_ln by lra.
    replace ((1 + (3 + 0)) / (1 + 1))%R with 2%R by lra.
    lra. }
  assert (Hne : (ln 3 / 2)%R <> ln 2).
  { intros H.
    assert (H4 : ln 3 = ln 4).
    { replace 4%R with (2 * 2)%R by lra. rewrite ln_mult by lra. lra. }
    apply ln_inv in H4; lra. }
  split; [exact Hrun|]. split; [exact Hval|].
  intros st' H. destruct Hrun as [st1 Hrun].
  rewrite Hrun, Hval in H. inversion H. apply Hne. assumption.
Qed.

(** C6, as stated, fails.  On [coupled_model] the final covariance of the
    one point is the 2 x 2 block [[1, 2], [3, 4]]; the tensor handed to
    the likelihood has shape (1, 2, 1) and holds the diagonal 1, 4 only:
    the couplings 2 and 3 between the two samples are not passed. *)
Lemma iwvi_drops_sample_coupling :
  exists v (st' : @state unit_runtime) mean cov_diag Y_tiled,
    variational_bound_iwvi coupled_model state0 = Some (v, st')
    /\ last (calls st') (EvNormal []) = EvVarExp mean cov_diag Y_tiled
    /\ shape cov_diag = [1; 2; 1]
    /\ data cov_diag = [1%R; 4%R]
    /\ cov_diag <> coupled_cov.
Proof.
  do 5 eexists. split; [eval_R; reflexivity|].
  split; [reflexivity|]. split; [reflexivity|]. split; [reflexivity|].
  unfold coupled_cov. discriminate.
Qed.


(** ** Further properties of the stack and the predictive operations *)

Section Predictions.

Context {RT : Runtime}.

Lemma py_last_map {A B} (f : A -> B) (l : list A) :
  py_last (map f l) = option_map f (py_last l).
Proof.
  induction l as [|x l IH]; [reflexivity|].
  destruct l as [|y l]; [reflexivity|].
  change (py_last (map f (x :: y :: l))) with (py_last (map f (y :: l))).
  rewrite IH. reflexivity.
Qed.

Lemma bind_lift_cases {A B} (o : option A) (k : A -> M B) (st : state) :
  bind (lift o) k st = match o with Some a => k a st | None => None end.
Proof. destruct o; reflexivity. Qed.

Lemma bind_fails {A B} (m : M A) (k : A -> M B) (st : state) :
  m st = None -> bind m k st = None.
Proof. intros H. unfold bind. rewrite H. reflexivity. Qed.

Lemma build_predict_is_vi (c : cls) :
  build_predict c = DGP_VI_build_predict c
  /\ build_predict_decomp c = DGP_VI_build_predict_decomp c
  /\ predict_f_multisample c = DGP_VI_predict_f_multisample c
  /\ predict_y_samples c = DGP_VI_predict_y_samples c.
Proof. destruct c; repeat split. Qed.

Lemma build_predict_chain (c : cls) (self : Model)
    (x : tensor) (full_cov : bool) (st : state) :
  build_predict c self x full_cov st
  = match chain (layers self) x full_cov None false (world st) with
    | None => None
    | Some (steps, w') =>
        match py_last steps with
        | None => None
        | Some p =>
            Some ((step_sample p, step_mean p, step_cov p),
                  mkState w'
                    (calls st
                     ++ layer_events (layers self) steps full_cov None false))
        end
    end.
Proof.
  rewrite (proj1 (build_predict_is_vi c)).
  unfold DGP_VI_build_predict, bind at 1.
  rewrite propagate_runs_chain.
  destruct (chain (layers self) x full_cov None false (world st))
    as [[steps w']|]; [|reflexivity].
  destruct (py_last steps) as [p|] eqn:E;
    repeat (rewrite bind_lift_cases, py_last_map, E; cbn [option_map]);
    reflexivity.
Qed.

Lemma build_predict_decomp_chain (c : cls) (self : Model)
    (x : tensor) (full_cov : bool) (st : state) :
  build_predict_decomp c self x full_cov st
  = match chain (layers self) x full_cov None false (world st) with
    | None => None
    | Some (steps, w') =>
        match py_last steps with
        | None => None
        | Some p =>
            Some ((step_sample p, step_mean p, map step_cov steps),
                  mkState w'
                    (calls st
                     ++ layer_events (layers self) steps full_cov None false))
        end
    end.
Proof.
  rewrite (proj1 (proj2 (build_predict_is_vi c))).
  unfold DGP_VI_build_predict_decomp, bind at 1.
  rewrite propagate_runs_chain.
  destruct (chain (layers self) x full_cov None false (world st))
    as [[steps w']|]; [|reflexivity].
  destruct (py_last steps) as [p|] eqn:E;
    repeat (rewrite bind_lift_cases, py_last_map, E; cbn [option_map]);
    reflexivity.
Qed.

(** X1. [_build_predict] returns the sample, mean and covariance of the last
    layer of one pass over the stack, run with the caller's [full_cov],
    without side information and with exact regularizers; it raises when
    a layer raises and on a stack without layers, and its only calls are
    those of the layers. *)
Theorem build_predict_returns_last_layer (c : cls) (self : Model)
    (x : tensor) (full_cov : bool) (st : state) :
  build_predict c self x full_cov st
  = match chain (layers self) x full_cov None false (world st) with
    | None => None
    | Some (steps, w') =>
        match py_last steps with
        | None => None
        | Some p =>
            Some ((step_sample p, step_mean p, step_cov p),
                  mkState w'
                    (calls st
                     ++ layer_events (layers self) steps full_cov None false))
        end
    end.
Proof. apply build_predict_chain. Qed.

(** X2. [_build_predict_decomp] returns one covariance per layer, and
    [_build_predict] is the same run with the last of them: on every
    model, input and state the two succeed or fail together and agree on
    the sample, the mean and the state they leave. *)
Theorem build_predict_is_last_of_decomp (c : cls) (self : Model)
    (x : tensor) (full_cov : bool) (st : state) :
  build_predict c self x full_cov st
  = match build_predict_decomp c self x full_cov st with
    | Some ((f, mean, covs), st') =>
        match py_last covs with
        | Some cov => Some ((f, mean, cov), st')
        | None => None
        end
    | None => None
    end
  /\ forall f mean covs st',
       build_predict_decomp c self x full_cov st
       = Some ((f, mean, covs), st') ->
       length covs = length (layers self).
Proof.
  rewrite build_predict_chain, build_predict_decomp_chain.
  destruct (chain (layers self) x full_cov None false (world st))
    as [[steps w']|] eqn:Hc; [|split; [reflexivity | discriminate]].
  destruct (py_last steps) as [p|] eqn:E;
    [|split; [reflexivity | discriminate]].
  split.
  - rewrite py_last_map, E. reflexivity.
  - intros f mean covs st' H. inversion H; subst.
    rewrite length_map. exact (proj1 (chain_inputs _ _ _ _ _ _ _ _ Hc)).
Qed.

(** X3. On a model without layers [propagate] returns five empty lists and
    leaves the state untouched, and every operation that reads the last
    layer raises: the two objectives and the four predictive
    operations. *)
Theorem empty_stack_propagates_but_nothing_else (c : cls) (self : Model)
    (x : tensor) (full_cov sampled : bool) (side : option tensor)
    (S : nat) (st : state) :
  layers self = [] ->
  propagate c self x full_cov side sampled st = Some (([], [], [], [], []), st)
  /\ variational_bound_vi self st = None
  /\ variational_bound_iwvi self st = None
  /\ build_predict c self x full_cov st = None
  /\ build_predict_decomp c self x full_cov st = None
  /\ predict_f_multisample c self x S st = None
  /\ predict_y_samples c self x S st = None.
Proof.
  intros Hl.
  assert (Hp : forall c' x' fc' side' sm' st',
            propagate c' self x' fc' side' sm' st'
            = Some (([], [], [], [], []), st')).
  { intros. rewrite propagate_runs_chain, Hl. cbn [chain map layer_events map2].
    rewrite app_nil_r. destruct st'; reflexivity. }
  destruct (build_predict_is_vi c) as (E1 & E2 & E3 & E4).
  split; [apply Hp|].
  split; [|split; [|split; [|split; [|split]]]].
  - unfold variational_bound_vi, build_likelihood. cbn [resolve defines].
    unfold DGP_VI_build_likelihood.
    rewrite !(bind_eq _ _ _ _ _ (as_tensor_batch _ _)).
    repeat (rewrite bind_lift_cases;
            match goal with
            | |- match ?o with Some _ => _ | None => _ end = None =>
                destruct o; [|reflexivity]
            end).
    rewrite (bind_eq _ _ _ _ _ (Hp _ _ _ _ _ _)). reflexivity.
  - unfold variational_bound_iwvi, build_likelihood. cbn [resolve defines].
    unfold DGP_IWVI_build_likelihood.
    rewrite !(bind_eq _ _ _ _ _ (as_tensor_batch _ _)).
    repeat (rewrite bind_lift_cases;
            match goal with
            | |- match ?o with Some _ => _ | None => _ end = None =>
                destruct o; [|reflexivity]
            end).
    rewrite (bind_eq _ _ _ _ _ (Hp _ _ _ _ _ _)). reflexivity.
  - rewrite E1. unfold DGP_VI_build_predict.
    rewrite (bind_eq _ _ _ _ _ (Hp _ _ _ _ _ _)). reflexivity.
  - rewrite E2. unfold DGP_VI_build_predict_decomp.
    rewrite (bind_eq _ _ _ _ _ (Hp _ _ _ _ _ _)). reflexivity.
  - rewrite E3. unfold DGP_VI_predict_f_multisample.
    repeat (rewrite bind_lift_cases;
            match goal with
            | |- match ?o with Some _ => _ | None => _ end = None =>
                destruct o; [|reflexivity]
            end).
    rewrite (bind_eq _ _ _ _ _ (Hp _ _ _ _ _ _)). reflexivity.
  - rewrite E4. unfold DGP_VI_predict_y_samples.
    repeat (rewrite bind_lift_cases;
            match goal with
            | |- match ?o with Some _ => _ | None => _ end = None =>
                destruct o; [|reflexivity]
            end).
    rewrite (bind_eq _ _ _ _ _ (Hp _ _ _ _ _ _)). reflexivity.
Qed.

(** *** Regularizers and stacks *)

Lemma select_partition (kls : list tensor) (ts : list RegularizerType) :
  length kls = length ts ->
  Permutation (select LOCAL kls ts ++ select GLOBAL kls ts) kls.
Proof.
  unfold select. revert ts.
  induction kls as [|k kls IH]; intros [|t ts] H; try discriminate.
  - constructor.
  - injection H as H. specialize (IH ts H).
    cbn [combine filter snd]. destruct t; cbn [RegularizerType_eqb map fst app].
    + constructor. exact IH.
    + apply Permutation_sym, Permutation_cons_app, Permutation_sym, IH.
Qed.

(** X6. The two list comprehensions of the objectives split the regularizers
    [propagate] returns: every layer's regularizer is in exactly one of
    the LOCAL and the GLOBAL list, none is dropped and none is counted
    twice. *)
Theorem regularizers_are_split (c : cls) (self : Model) (x : tensor)
    (full_cov sampled : bool) (side : option tensor) (st st1 : state)
    (samples means covs kls : list tensor)
    (kl_types : list RegularizerType) :
  propagate c self x full_cov side sampled st
  = Some ((samples, means, covs, kls, kl_types), st1) ->
  Permutation (select LOCAL kls kl_types ++ select GLOBAL kls kl_types) kls
  /\ length (select LOCAL kls kl_types) + length (select GLOBAL kls kl_types)
     = length (layers self).
Proof.
  intros H. rewrite propagate_runs_chain in H.
  destruct (chain (layers self) x full_cov side sampled (world st))
    as [[steps w']|] eqn:Hc; [|discriminate].
  inversion H; subst; clear H.
  pose proof (proj1 (chain_inputs _ _ _ _ _ _ _ _ Hc)) as Hl.
  assert (Hp : Permutation
                 (select LOCAL (map step_kl steps)
                    (map regularizer_type (layers self))
                  ++ select GLOBAL (map step_kl steps)
                       (map regularizer_type (layers self)))
                 (map step_kl steps)).
  { apply select_partition. rewrite !length_map. exact Hl. }
  split; [exact Hp|].
  apply Permutation_length in Hp.
  rewrite length_app, length_map in Hp. lia.
Qed.

Lemma last_cons {A} (a d : A) (l : list A) : last (a :: l) d = last l a.
Proof.
  revert a d; induction l as [|b l IH]; intros a d; [reflexivity|].
  change (last (a :: b :: l) d) with (last (b :: l) d).
  rewrite (IH b d), (IH b a). reflexivity.
Qed.

Lemma chain_app (l1 l2 : list Layer) (fc : bool) (side : option tensor)
    (sampled : bool) :
  forall (x : tensor) (w : World),
    chain (l1 ++ l2) x fc side sampled w
    = match chain l1 x fc side sampled w with
      | None => None
      | Some (steps1, w1) =>
          match chain l2 (last (map step_sample steps1) x) fc side sampled w1
          with
          | None => None
          | Some (steps2, w2) => Some (steps1 ++ steps2, w2)
          end
      end.
Proof.
  induction l1 as [|l l1 IH]; intros x w.
  - cbn [app chain map last].
    destruct (chain l2 x fc side sampled w) as [[s2 w2]|]; reflexivity.
  - cbn [app chain].
    destruct (layer_propagate l w x fc side sampled)
      as [[[[[s m] c] k] w']|]; [|reflexivity].
    rewrite IH.
    destruct (chain l1 s fc side sampled w') as [[steps1 w1]|]; [|reflexivity].
    replace (last (map step_sample ((x, (s, m, c, k)) :: steps1)) x)
      with (last (map step_sample steps1) s).
    + destruct (chain l2 _ fc side sampled w1) as [[s2 w2]|]; reflexivity.
    + cbn [map step_sample]. symmetry. apply last_cons.
Qed.

Lemma layer_events_app (l1 l2 : list Layer)
    (s1 s2 : list (tensor * (tensor * tensor * tensor * tensor)))
    (fc : bool) (side : option tensor) (sampled : bool) :
  length s1 = length l1 ->
  layer_events (l1 ++ l2) (s1 ++ s2) fc side sampled
  = layer_events l1 s1 fc side sampled ++ layer_events l2 s2 fc side sampled.
Proof.
  unfold layer_events. revert s1.
  induction l1 as [|l l1 IH]; intros [|p s1] H; try discriminate.
  - reflexivity.
  - injection H as H. cbn [app map2]. f_equal. apply IH, H.
Qed.

(** X7. Stacks compose: propagating through [l1 ++ l2] is propagating through
    [l1] and then through [l2] from the last sample of [l1] (from the
    input itself when [l1] is empty), in the state [l1] left; the five
    returned lists are the two runs' lists appended. *)
Theorem propagate_composes (c : cls) (self : Model) (l1 l2 : list Layer)
    (x : tensor) (full_cov sampled : bool) (side : option tensor)
    (st : state) :
  propagate c (with_layers self (l1 ++ l2)) x full_cov side sampled st
  = match propagate c (with_layers self l1) x full_cov side sampled st with
    | None => None
    | Some ((s1, m1, c1, k1, t1), st1) =>
        match propagate c (with_layers self l2) (last s1 x)
                full_cov side sampled st1 with
        | None => None
        | Some ((s2, m2, c2, k2, t2), st2) =>
            Some ((s1 ++ s2, m1 ++ m2, c1 ++ c2, k1 ++ k2, t1 ++ t2), st2)
        end
    end.
Proof.
  rewrite !propagate_runs_chain. cbn [with_layers layers].
  rewrite chain_app.
  destruct (chain l1 x full_cov side sampled (world st))
    as [[steps1 w1]|] eqn:H1; [|reflexivity].
  rewrite propagate_runs_chain. cbn [with_layers layers world calls].
  destruct (chain l2 _ full_cov side sampled w1) as [[steps2 w2]|];
    [|reflexivity].
  rewrite !map_app.
  rewrite (layer_events_app _ _ _ _ _ _ _
             (proj1 (chain_inputs _ _ _ _ _ _ _ _ H1))).
  rewrite app_assoc. reflexivity.
Qed.

(** *** The multi-sample predictions *)

(** [tf.tile(t[None, :, :], [S, 1, 1])] on an (N, D) matrix: entry
    [[s; n; d]] is entry [[n; d]]. *)
Lemma tile_leading (t : tensor) (S N D : nat) :
  shape t = [N; D] ->
  exists t1 T,
    newaxis0 t = Some t1
    /\ tile t1 [S; 1; 1] = Some T
    /\ shape T = [S; N; D]
    /\ forall s n d, s < S -> n < N -> d < D ->
         get T [s; n; d] = get t [n; d].
Proof.
  intros Hs. exists (mkT [1; N; D] (data t)).
  exists (tabulate [1 * S; N * 1; D * 1]
            (fun idx => get (mkT [1; N; D] (data t))
                            (map2 Nat.modulo idx [1; N; D]))).
  split; [|split; [|split]].
  - unfold newaxis0. rewrite Hs. reflexivity.
  - reflexivity.
  - cbn [shape tabulate]. f_equal; [lia | f_equal; [lia | f_equal; lia]].
  - intros s n d Hsl Hn Hd.
    rewrite get_tabulate by (cbn [in_bounds]; repeat split; lia).
    cbn [map2]. rewrite Nat.mod_1_r, !Nat.mod_small by assumption.
    unfold get. rewrite Hs. cbn [shape data ravel size fold_right].
    f_equal; lia.
Qed.

(** X8. [predict_f_multisample] is [_build_predict] without full covariance
    on [S] stacked copies of the input, with the sample left out: the
    tiled input has shape (S, N, D) and every copy [s] of it is [X]. *)
Theorem multisample_is_predict_on_copies (c : cls) (self : Model)
    (x : tensor) (S N D : nat) (st : state) :
  shape x = [N; D] ->
  exists X_tiled,
    shape X_tiled = [S; N; D]
    /\ (forall s n d, s < S -> n < N -> d < D ->
          get X_tiled [s; n; d] = get x [n; d])
    /\ predict_f_multisample c self x S st
       = match build_predict c self X_tiled false st with
         | Some ((_, mean, cov), st') => Some ((mean, cov), st')
         | None => None
         end.
Proof.
  intros Hs. destruct (tile_leading x S N D Hs) as (x1 & T & E1 & E2 & HT & Hg).
  exists T. split; [exact HT|]. split; [exact Hg|].
  rewrite build_predict_chain.
  rewrite (proj1 (proj2 (proj2 (build_predict_is_vi c)))).
  unfold DGP_VI_predict_f_multisample.
  rewrite (bind_lift _ _ _ _ E1), (bind_lift _ _ _ _ E2).
  unfold bind at 1. rewrite propagate_runs_chain.
  destruct (chain (layers self) T false None false (world st))
    as [[steps w']|]; [|reflexivity].
  destruct (py_last steps) as [p|] eqn:E;
    repeat (rewrite bind_lift_cases, py_last_map, E; cbn [option_map]);
    reflexivity.
Qed.

Lemma predict_y_samples_after_f (c : cls) (self : Model) (x : tensor)
    (S : nat) (st : state) :
  predict_y_samples c self x S st
  = match predict_f_multisample c self x S st with
    | Some ((mean, cov), st1) =>
        ('(m, v) <- call_predict (likelihood self) mean cov ;;
         z <- call_random_normal (shape mean) ;;
         zv <- lift (mul z (sqrt_t v)) ;;
         lift (add m zv)) st1
    | None => None
    end.
Proof.
  destruct (build_predict_is_vi c) as (_ & _ & E3 & E4). rewrite E3, E4.
  unfold DGP_VI_predict_y_samples, DGP_VI_predict_f_multisample.
  rewrite !bind_lift_cases.
  destruct (newaxis0 x) as [x1|]; [|reflexivity].
  rewrite !bind_lift_cases.
  destruct (tile x1 [S; 1; 1]) as [T|]; [|reflexivity].
  destruct (propagate c self T false None false st)
    as [[[[[[ss ms] cs] ks] ts] st1]|] eqn:Hp;
    [|rewrite !(bind_fails _ _ _ Hp); reflexivity].
  rewrite !(bind_eq _ _ _ _ _ Hp). cbv beta iota.
  rewrite !bind_lift_cases.
  destruct (py_last ms) as [mean|]; [|reflexivity].
  rewrite !bind_lift_cases.
  destruct (py_last cs) as [cov|]; reflexivity.
Qed.

Lemma get_sqrt_t (v : tensor) (idx : list nat) :
  get (sqrt_t v) idx = sqrt (get v idx).
Proof.
  unfold get, sqrt_t. cbn [shape data].
  rewrite <- sqrt_0 at 1. apply map_nth.
Qed.

(** X9. [predict_y_samples] continues [predict_f_multisample]: it asks the
    likelihood for the predictive mean [m] and variance [v] of the final
    mean and covariance, draws one standard-normal tensor [z] of the
    shape of the final mean, and returns [m + z * sqrt v] entry by entry.
    The draw advances the random state, so a second call starts from
    another state. *)
Theorem y_samples_reparameterize (c : cls) (self : Model) (x : tensor)
    (S : nat) (st st1 : state) (mean cov m v z : tensor) (w2 : World)
    (sh : list nat) :
  predict_f_multisample c self x S st = Some ((mean, cov), st1) ->
  predict_mean_and_var (likelihood self) mean cov = Some (m, v) ->
  random_normal (world st1) (shape mean) = (z, w2) ->
  shape m = sh -> shape v = sh -> shape z = sh ->
  exists y,
    predict_y_samples c self x S st
    = Some (y, mkState w2
                 (calls st1 ++ [EvPredict mean cov; EvNormal (shape mean)]))
    /\ shape y = sh
    /\ forall idx, in_bounds sh idx ->
         get y idx = (get m idx + get z idx * sqrt (get v idx))%R.
Proof.
  intros Hf Hp Hz Hm Hv Hzs.
  rewrite predict_y_samples_after_f, Hf.
  assert (Hsv : shape (sqrt_t v) = sh) by exact Hv.
  pose proof (zip_with_same Rmult z (sqrt_t v) sh Hzs Hsv) as Hmul.
  set (zv := tabulate sh (fun idx => (bget z idx * bget (sqrt_t v) idx)%R))
    in Hmul.
  pose proof (zip_with_same Rplus m zv sh Hm eq_refl) as Hadd.
  eexists. split; [|split].
  - unfold bind at 1, call_predict. rewrite Hp. cbv beta iota.
    unfold bind at 1, call_random_normal, log_call. cbn [world calls].
    rewrite Hz. cbv beta iota.
    unfold mul, add. rewrite (bind_lift _ _ _ _ Hmul).
    unfold lift. rewrite Hadd. rewrite <- app_assoc. reflexivity.
  - reflexivity.
  - intros idx Hb. rewrite get_tabulate by exact Hb.
    rewrite bget_in_bounds by (rewrite Hm; exact Hb).
    rewrite (bget_in_bounds zv) by exact Hb.
    unfold zv. rewrite get_tabulate by exact Hb.
    rewrite !bget_in_bounds by (rewrite ?Hzs, ?Hsv; exact Hb).
    rewrite get_sqrt_t. reflexivity.
Qed.

End Predictions.

(** *** The shift of the log-sum-exp *)

Lemma fold_Rmax_ge_init (l : list R) (a : R) :
  (a <= fold_right Rmax a l)%R.
Proof.
  induction l as [|b l IH]; cbn [fold_right]; [lra|].
  apply Rle_trans with (fold_right Rmax a l); [exact IH | apply Rmax_r].
Qed.

Lemma fold_Rmax_ge_in (l : list R) (a x : R) :
  In x l -> (x <= fold_right Rmax a l)%R.
Proof.
  induction l as [|b l IH]; [contradiction|].
  cbn [fold_right]. intros [->|Hin]; [apply Rmax_l|].
  apply Rle_trans with (fold_right Rmax a l); [apply IH, Hin | apply Rmax_r].
Qed.

Lemma fold_Rmax_in (l : list R) (a : R) :
  In (fold_right Rmax a l) (a :: l).
Proof.
  induction l as [|b l IH]; cbn [fold_right]; [left; reflexivity|].
  apply Rmax_case_strong; intros _.
  - right; left; reflexivity.
  - destruct IH as [IH|IH]; [left; exact IH | right; right; exact IH].
Qed.

Lemma exp_le_one (x : R) : (x <= 0)%R -> (exp x <= 1)%R.
Proof.
  intros [H|H]; [|subst; rewrite exp_0; lra].
  left. rewrite <- exp_0. apply exp_increasing, H.
Qed.

Lemma Rsum_shifted_bounds (m : R) (l : list R) :
  (forall x, In x l -> (x <= m)%R) ->
  (0 <= Rsum (map (fun x => exp (x - m)) l) <= INR (length l))%R.
Proof.
  induction l as [|a l IH]; intros H.
  - simpl. lra.
  - cbn [map Rsum fold_right length]. rewrite S_INR.
    assert (Ha : (exp (a - m) <= 1)%R)
      by (apply exp_le_one; specialize (H a (or_introl eq_refl)); lra).
    pose proof (exp_pos (a - m)).
    assert (IH' := IH (fun x Hx => H x (or_intror Hx))).
    unfold Rsum in IH'. lra.
Qed.

Lemma Rsum_shifted_ge_one (m : R) (l : list R) :
  In m l -> (1 <= Rsum (map (fun x => exp (x - m)) l))%R.
Proof.
  induction l as [|a l IH]; [contradiction|].
  cbn [map Rsum fold_right]. intros [->|Hin].
  - replace (m - m)%R with 0%R by lra. rewrite exp_0.
    assert (0 <= fold_right Rplus 0 (map (fun x => exp (x - m)) l))%R.
    { clear. induction l as [|b l IHl]; simpl; [lra|].
      pose proof (exp_pos (b - m)). lra. }
    lra.
  - specialize (IH Hin). pose proof (exp_pos (a - m)).
    unfold Rsum in IH. lra.
Qed.

(** X14. The log-sum-exp of the IWVI objective never exponentiates a positive
    number: after the shift by the maximum every exponential is at most
    one, and their sum, of which the logarithm is taken, lies between one
    and the number of samples. *)
Theorem logsumexp_shift_is_bounded (l : list R) :
  l <> [] ->
  (forall x, In x l -> (exp (x - Rmax_list l) <= 1)%R)
  /\ (1 <= Rsum (map (fun x => exp (x - Rmax_list l)) l)
      <= INR (length l))%R
  /\ logsumexp l
     = (ln (Rsum (map (fun x => exp (x - Rmax_list l)) l)) + Rmax_list l)%R.
Proof.
  intros Hne. destruct l as [|a l]; [congruence|].
  assert (Hge : forall x, In x (a :: l) -> (x <= Rmax_list (a :: l))%R).
  { intros x [->|Hin]; cbn [Rmax_list];
      [apply fold_Rmax_ge_init | apply fold_Rmax_ge_in, Hin]. }
  assert (Hin : In (Rmax_list (a :: l)) (a :: l)) by apply fold_Rmax_in.
  split; [|split].
  - intros x Hx. apply exp_le_one. specialize (Hge x Hx). lra.
  - split; [apply Rsum_shifted_ge_one, Hin|].
    apply (Rsum_shifted_bounds _ _ Hge).
  - reflexivity.
Qed.

(** *** The further properties on concrete stacks *)

Lemma empty_stack_propagates_but_nothing_else_witness :
  propagate DGP_VI empty_model X0 false None false state0
  = Some (([], [], [], [], []), state0)
  /\ variational_bound_vi empty_model state0 = None
  /\ variational_bound_iwvi empty_model state0 = None
  /\ build_predict DGP_VI empty_model X0 false state0 = None.
Proof.
  destruct (@empty_stack_propagates_but_nothing_else unit_runtime DGP_VI
              empty_model X0 false false None 2 state0 eq_refl)
    as (H1 & H2 & H3 & H4 & _).
  repeat split; assumption.
Defined.

Lemma regularizers_are_split_witness :
  exists kls kl_types,
    Permutation (select LOCAL kls kl_types ++ select GLOBAL kls kl_types) kls
    /\ length (select LOCAL kls kl_types)
       + length (select GLOBAL kls kl_types)
       = length (layers echo_model).
Proof.
  do 2 eexists.
  eapply (@regularizers_are_split unit_runtime DGP_VI echo_model X0 false
            false None state0).
  reflexivity.
Defined.

(** Two copies of a two-row input: shape (2, 2, 1), the second copy's
    second row is the input's second row. *)
Lemma multisample_is_predict_on_copies_witness :
  exists X_tiled,
    shape X_tiled = [2; 2; 1]
    /\ get X_tiled [1; 1; 0] = 7%R
    /\ predict_f_multisample DGP_IWVI echo_model X3 2 state0
       = match build_predict DGP_IWVI echo_model X_tiled false state0 with
         | Some ((_, mean, cov), st') => Some ((mean, cov), st')
         | None => None
         end.
Proof.
  destruct (@multisample_is_predict_on_copies unit_runtime DGP_IWVI echo_model
              X3 2 2 1 state0 eq_refl) as (T & Hs & Hg & Hr).
  exists T. split; [exact Hs|]. split; [|exact Hr].
  rewrite (Hg 1 1 0) by lia. reflexivity.
Defined.

(** On [echo_model] the predictive mean and variance are the tiled input
    and the noise of [unit_runtime] is zero: the draw is the mean. *)
Lemma y_samples_reparameterize_witness :
  exists y st',
    predict_y_samples DGP_VI echo_model X3 2 state0 = Some (y, st')
    /\ shape y = [2; 2; 1]
    /\ get y [1; 1; 0] = (7 + 0 * sqrt 7)%R.
Proof.
  edestruct (@y_samples_reparameterize unit_runtime DGP_VI echo_model X3 2
               state0) with (sh := [2; 2; 1])
    as (y & Hy & Hs & Hg); try run_hyps.
  eexists. eexists. split; [exact Hy|]. split; [exact Hs|].
  rewrite Hg by (cbn; lia). reflexivity.
Defined.

Lemma vi_with_one_sample_witness :
  exists st', variational_bound_vi single_model state0 = Some (1%R, st').
Proof.
  eexists.
  erewrite (@vi_with_one_sample unit_runtime single_model state0 1 1 1);
    try run_hyps.
  f_equal. f_equal. eval_R. lra.
Defined.

Lemma iwvi_with_one_sample_witness :
  exists st', variational_bound_iwvi single_model state0 = Some (1%R, st').
Proof.
  eexists.
  erewrite (@iwvi_with_one_sample unit_runtime single_model state0 1 1 1);
    try run_hyps.
  f_equal. f_equal. eval_R. lra.
Defined.

Lemma iwvi_bound_dominates_vi_bound_witness :
  exists a b st' st'',
    variational_bound_vi global_model state0 = Some (a, st')
    /\ variational_bound_iwvi global_model state0 = Some (b, st'')
    /\ (a <= b)%R.
Proof.
  edestruct (@iwvi_bound_dominates_vi_bound unit_runtime global_model state0
               1 1 1) as (a & b & Ha & Hb & Hab);
    try run_hyps.
  - intros n k Hn Hk.
    destruct n as [|n]; [|lia]. destruct k as [|[|k]]; [| |cbn in Hk; lia].
    + eval_R. lra.
    + eval_R. lra.
  - exists a, b. eexists. eexists.
    split; [exact Ha|]. split; [exact Hb | exact Hab].
Defined.

(** [global_model] is what the constructor builds from [X0] and [Y0]
    without a minibatch size: the bound is [2 - 1]. *)
Lemma full_batch_is_unscaled_witness :
  exists w st' st'',
    variational_bound_vi global_model state0 = Some (1%R, st')
    /\ variational_bound_iwvi global_model state0 = Some (w, st'').
Proof.
  edestruct (@full_batch_is_unscaled unit_runtime global_model state0 1 1 1)
    with (Xf := X0) (Yf := Y0) as (H1 & H2);
    try run_hyps.
  rewrite H1, H2. eexists. eexists. eexists. split.
  - f_equal. f_equal. eval_R. lra.
  - reflexivity.
Defined.

Lemma logsumexp_shift_is_bounded_witness :
  (1 <= Rsum (map (fun x => exp (x - Rmax_list [0; 1])) [0; 1]) <= 2)%R.
Proof.
  destruct (logsumexp_shift_is_bounded [0%R; 1%R]) as (_ & H & _);
    [discriminate|].
  cbn [length INR] in H. lra.
Defined.
